(** * Lumine: a shallow embedding of the payment core

  The development follows the repository's five components:
  - [AddressCodec]      usdcx-bridge/helper.js
  - [BridgeDepositFlow] the deposit script that imports helper.js
  - [SignerService]     usdcx-bridge/stacks-signer.js
  - [PaymentGateway]    the lumine-gateway package ([requirePayment])
  - [PaymentClient]     packages/lumine-client/src/index.ts

  Conventions of the embedding.
  - A JavaScript string is a [string] of code units below 256: the
    [ascii] code [n] is the character U+00nn, so that the codes from 128
    on are the Latin-1 characters (U+00DF, the sharp s, is ["223"%char]
    and U+00A0, the no-break space, is ["160"%char]). Text with a code
    unit from U+0100 on has no counterpart here.
  - A [Uint8Array] is a [list byte].
  - A [throw] is a value of an error type; [await]ed calls to the network
    or to a library are answered by an explicit environment record, and
    every call the program makes is recorded in a trace. *)

From Stdlib Require Import ZArith NArith Lia List Ascii String.
From Stdlib.Strings Require Import Byte.
From stdpp Require Import base option list strings gmap.
Import ListNotations.

#[local] Set Warnings "-register-all".

Local Open Scope string_scope.
Local Open Scope list_scope.

(** ** JavaScript string primitives used by the sources *)

Module Js.

(** The capital of an ASCII letter; every other character is kept. *)
Definition toUpperCase_char (c : ascii) : ascii :=
  let n := nat_of_ascii c in
  if (97 <=? n)%nat && (n <=? 122)%nat then ascii_of_nat (n - 32) else c.

(** The upper-case form of one character, as [String.prototype.toUpperCase]
    computes it from the Unicode case mappings:
    - a-z (U+0061-U+007A) give A-Z;
    - U+00DF, the sharp s, gives the two characters SS (SpecialCasing);
    - U+00E0-U+00FE other than the division sign U+00F7 give
      U+00C0-U+00DE;
    - every other character below U+0100 is kept. The micro sign U+00B5
      and U+00FF are kept too: their capitals U+039C and U+0178 are not
      code units of this model, and like them they are outside the c32
      alphabet and the letters S, T and P. *)
Definition upper_of_char (c : ascii) : string :=
  let n := nat_of_ascii c in
  if (97 <=? n)%nat && (n <=? 122)%nat
  then String (ascii_of_nat (n - 32)) EmptyString
  else if (n =? 223)%nat then "SS"
  else if (224 <=? n)%nat && (n <=? 254)%nat && negb (n =? 247)%nat
  then String (ascii_of_nat (n - 32)) EmptyString
  else String c EmptyString.

(** [s.toUpperCase()]: the upper-case forms of the characters, in order.
    The result is longer than [s] when [s] has a sharp s. *)
Fixpoint toUpperCase (s : string) : string :=
  match s with
  | EmptyString => EmptyString
  | String c rest => upper_of_char c +:+ toUpperCase rest
  end.

(** [s.slice(0, n)]. *)
Fixpoint slice_to (n : nat) (s : string) : string :=
  match n, s with
  | S n', String c rest => String c (slice_to n' rest)
  | _, _ => EmptyString
  end.

(** [s.slice(n)]. *)
Fixpoint slice_from (n : nat) (s : string) : string :=
  match n, s with
  | S n', String _ rest => slice_from n' rest
  | _, _ => s
  end.

(** [s.indexOf(c)] for a one-character needle, counting from [i];
    [None] stands for the JavaScript result [-1]. *)
Fixpoint indexOf_from (i : nat) (s : string) (c : ascii) : option nat :=
  match s with
  | EmptyString => None
  | String a rest =>
      if Ascii.eqb a c then Some i else indexOf_from (S i) rest c
  end.

Definition indexOf (s : string) (c : ascii) : option nat :=
  indexOf_from 0 s c.

(** [s.padStart(n, "0")]: as many "0" as [s] is short of [n]. *)
Fixpoint zeros (n : nat) : string :=
  match n with
  | O => EmptyString
  | S n' => String "0" (zeros n')
  end.

Definition padStart0 (n : nat) (s : string) : string :=
  zeros (n - String.length s) +:+ s.

(** The characters of a string, in order. *)
Definition chars (s : string) : list ascii := list_ascii_of_string s.

(** U+00DF, the one character below U+0100 whose upper-case form has two
    characters, and the strings that contain it. *)
Definition sharp_s : ascii := "223"%char.


End Js.

(** ** AddressCodec (usdcx-bridge/helper.js) *)

Module AddressCodec.
Import Js.

(** The [Error]s thrown by helper.js, named as the specification names
    them; each carries the datum the message interpolates.
    [SizeExceedsPaddingSize] is the error of viem's [pad]. *)
Inductive error : Type :=
| InvalidCharacter (char : ascii)
| UnknownAddressPrefix (prefix : string)
| MalformedBody (decoded_length : nat)
| InputTooLong (len : nat)
| SizeExceedsPaddingSize.

Inductive result (A : Type) : Type :=
| Ok (a : A)
| Throw (e : error).
Arguments Ok {A} a.
Arguments Throw {A} e.

(** Sequencing: a [throw] of the first computation aborts the rest. *)
#[global] Instance result_bind : MBind result := fun A B k m =>
  match m with
  | Ok a => k a
  | Throw e => Throw e
  end.

Definition C32_ALPHABET : string := "0123456789ABCDEFGHJKMNPQRSTVWXYZ".

Definition STACKS_TESTNET_P2PKH : byte := x1a.
Definition STACKS_MAINNET_P2PKH : byte := x16.

(** A bit string ([bits] in the source, a string over "0" and "1") is a
    [list bool], most significant bit first; [true] is "1". *)
Definition bits := list bool.

(** [index.toString(2).padStart(5, "0")] for an index below 32: the five
    binary digits of [index], most significant first. *)
Definition bits5 (index : nat) : bits :=
  map (N.testbit (N.of_nat index)) [4; 3; 2; 1; 0]%N.

(** The first loop of [c32Decode]: look every character of the
    upper-cased input up in the alphabet and append its five bits. *)
Fixpoint collect_bits (upper : string) (acc : bits) : result bits :=
  match upper with
  | EmptyString => Ok acc
  | String char rest =>
      match indexOf C32_ALPHABET char with
      | None => Throw (InvalidCharacter char)
      | Some index => collect_bits rest (acc ++ bits5 index)
      end
  end.

(** [while (bits.length % 8 !== 0 && bits.startsWith("0")) bits = bits.slice(1)] *)
Fixpoint trim_leading_zeros (b : bits) : bits :=
  match b with
  | false :: rest =>
      if (length b mod 8 =? 0)%nat then b else trim_leading_zeros rest
  | _ => b
  end.

(** [while (bits.length % 8 !== 0) bits = "0" + bits], run for at most
    [fuel] iterations. *)
Fixpoint pad_to_byte (fuel : nat) (b : bits) : bits :=
  match fuel with
  | O => b
  | S fuel' =>
      if (length b mod 8 =? 0)%nat then b else pad_to_byte fuel' (false :: b)
  end.

(** [parseInt(s, 2)] on a bit string. *)
Definition parseInt2 (b : bits) : N :=
  fold_left (fun (acc : N) (bit : bool) =>
               (2 * acc + (if bit then 1 else 0))%N) b 0%N.

(** Storing a number into a [Uint8Array] slot keeps it modulo 256. *)
Definition to_uint8 (n : N) : byte :=
  default x00 (Byte.of_N (n mod 256)).

(** [for (let i = 0; i < bits.length; i += 8)
       bytes.push(parseInt(bits.slice(i, i + 8), 2))],
    as a recursion on what is left of [bits] after position [i]. *)
Fixpoint bytes_loop (fuel : nat) (b : bits) : list byte :=
  match fuel, b with
  | S fuel', _ :: _ =>
      to_uint8 (parseInt2 (take 8 b)) :: bytes_loop fuel' (drop 8 b)
  | _, _ => []
  end.

Definition c32Decode (input : string) : result (list byte) :=
  b ← collect_bits (toUpperCase input) [];
  let b := trim_leading_zeros b in
  let b := pad_to_byte 8 b in
  Ok (bytes_loop (length b) b).

(** [result.set(source, offset)] on a typed array: the window
    [offset, offset + source.length) is overwritten. *)
Definition typed_set (target source : list byte) (offset : nat) : list byte :=
  take offset target ++ source ++ drop (offset + length source) target.

Definition encodeRecipient (stacksAddress : string) : result (list byte) :=
  let prefix := toUpperCase (slice_to 2 stacksAddress) in
  version ←
    (if String.eqb prefix "ST" then Ok STACKS_TESTNET_P2PKH
     else if String.eqb prefix "SP" then Ok STACKS_MAINNET_P2PKH
     else Throw (UnknownAddressPrefix prefix));
  let c32Body := slice_from 2 stacksAddress in
  decoded ← c32Decode c32Body;
  if negb (length decoded =? 24)%nat then Throw (MalformedBody (length decoded))
  else
    let hash160 := take 20 decoded in
    let result := replicate 21 x00 in
    let result := <[0%nat := version]> result in
    let result := typed_set result hash160 1 in
    Ok result.

(** One hexadecimal digit, lower case, as [Buffer.toString("hex")]
    prints it. *)
Definition hex_digit (n : N) : ascii :=
  if (n <? 10)%N then ascii_of_N (48 + n) else ascii_of_N (87 + n).

Definition hex_of_byte (b : byte) : string :=
  let n := Byte.to_N b in
  String (hex_digit (n / 16)) (String (hex_digit (n mod 16)) EmptyString).

(** [Buffer.from(bytes).toString("hex")]. *)
Fixpoint toString_hex (bytes : list byte) : string :=
  match bytes with
  | [] => EmptyString
  | b :: rest => hex_of_byte b +:+ toString_hex rest
  end.

(** [hex_.replace("0x", "")]: the first occurrence is removed. *)
Fixpoint replace_0x (s : string) : string :=
  match s with
  | String "0" (String "x" rest) => rest
  | String c rest => String c (replace_0x rest)
  | EmptyString => EmptyString
  end.

(** viem's [pad(hex, { size, dir: "left" })] on a hex string: strip the
    "0x", refuse more than [size] bytes, pad the digits on the left. *)
Definition pad (hex_ : string) (size : nat) : result string :=
  let hex := replace_0x hex_ in
  if (size * 2 <? String.length hex)%nat then Throw SizeExceedsPaddingSize
  else Ok ("0x" +:+ padStart0 (size * 2) hex).

Definition bytes32FromBytes (bytes : list byte) : result string :=
  if (32 <? length bytes)%nat then Throw (InputTooLong (length bytes))
  else pad ("0x" +:+ toString_hex bytes) 32.

Definition encodeStacksAddress (stacksAddress : string) : result string :=
  encoded ← encodeRecipient stacksAddress;
  bytes32FromBytes encoded.

(** *** The specification's reading of [decode]

    The definitions below follow the words of the specification, not the
    loops of the source: every character gives a 5-bit group, the groups
    are concatenated, leading zero bits are trimmed down towards the byte
    boundary below, and what is still unaligned is padded on the left. *)







(** The 5-bit group of a character that is a symbol of the alphabet, a
    letter in either case, and the groups of a text made of such
    characters only. *)
Definition group_of_char (c : ascii) : option bits :=
  bits5 <$> indexOf C32_ALPHABET (toUpperCase_char c).

Fixpoint group_bits (input : string) : option bits :=
  match input with
  | EmptyString => Some []
  | String c rest =>
      g ← group_of_char c;
      r ← group_bits rest;
      Some (g ++ r)
  end.

Fixpoint leading_zeros (b : bits) : nat :=
  match b with
  | false :: rest => S (leading_zeros rest)
  | _ => 0
  end.

Definition trim_spec (b : bits) : bits :=
  drop (min (length b mod 8) (leading_zeros b)) b.

Definition pad_spec (b : bits) : bits :=
  replicate ((8 - length b mod 8) mod 8) false ++ b.

Definition align_spec (b : bits) : bits := pad_spec (trim_spec b).

(** The eight bits of a byte, most significant first, and the bit string
    a byte sequence stands for. *)
Definition bits_of_byte (x : byte) : bits :=
  map (N.testbit (Byte.to_N x)) [7; 6; 5; 4; 3; 2; 1; 0]%N.

Definition bits_of_bytes (bytes : list byte) : bits :=
  flat_map bits_of_byte bytes.



(** The byte interpretation of a "0x" hex string (two digits a byte),
    used to read the output of [bytes32FromBytes] back. *)
Definition hex_value (c : ascii) : option N :=
  let n := N_of_ascii c in
  if (48 <=? n)%N && (n <=? 57)%N then Some (n - 48)%N
  else if (97 <=? n)%N && (n <=? 102)%N then Some (n - 87)%N
  else if (65 <=? n)%N && (n <=? 70)%N then Some (n - 55)%N
  else None.

Fixpoint bytes_of_digits (digits : string) : option (list byte) :=
  match digits with
  | EmptyString => Some []
  | String _ EmptyString => None
  | String h (String l rest) =>
      hi ← hex_value h;
      lo ← hex_value l;
      tail ← bytes_of_digits rest;
      Some (to_uint8 (16 * hi + lo) :: tail)
  end.

Definition bytes_of_hex (hex : string) : option (list byte) :=
  match hex with
  | String "0" (String "x" digits) => bytes_of_digits digits
  | _ => None
  end.

(** The address of the specification's scenario (and of the deposit
    script's configuration). *)
Definition scenario_address : string :=
  "ST3Q6YCK0E2SDAA1KS7X546NY02F12D88RZHAH2P3".

(** The first clause of the specification's [encode], read literally: a
    prefix other than the two listed is refused. *)
Definition unknown_prefix_refused_literally : Prop :=
  forall address : string,
    slice_to 2 address <> "ST" -> slice_to 2 address <> "SP" ->
    exists p, encodeRecipient address = Throw (UnknownAddressPrefix p).

(** One step of [parseInt2]: a bit shifted in on the right. *)
Definition bit_step (acc : N) (bit : bool) : N :=
  (2 * acc + (if bit then 1 else 0))%N.


End AddressCodec.

(** ** payment-verifier.clar (the Clarity contract kept with helper.js)

  A [uint] is a natural number below 2^128 and a principal is its text. A
  read-only function returns a value, or aborts at run time ([None]) when
  an arithmetic operation overflows, underflows or divides by zero. *)

Module PaymentVerifier.

Definition uint_bound : N := 2 ^ 128.

(** [(response bool uint)] as the contract builds it: [(ok true)] or
    [(err code)]. *)
Inductive response : Type :=
| ok_true
| err (code : N).

Definition USDCX_CONTRACT : string :=
  "ST1PQHQKV0RJXZFY1DGX8MNSNYVE3VGZJSRTPGZGM.usdcx".

Definition ERR_INVALID_AMOUNT : response := err 1001.
Definition ERR_INVALID_RECIPIENT : response := err 1002.
Definition ERR_INVALID_SENDER : response := err 1003.
Definition ERR_AMOUNT_INSUFFICIENT : response := err 1004.

(** [(asserts! cond thrown)]: go on when [cond] holds, return [thrown]
    otherwise. *)
Definition asserts (cond : bool) (thrown rest : response) : response :=
  if cond then rest else thrown.

Definition verify_transfer_params
    (sender recipient : string) (amount required_amount : N)
    (expected_recipient : string) : response :=
  (* Check recipient matches expected *)
  asserts (String.eqb recipient expected_recipient) ERR_INVALID_RECIPIENT
    (* Check amount is sufficient (exact or greater) *)
    (asserts (required_amount <=? amount)%N ERR_AMOUNT_INSUFFICIENT
       (* Check sender is not the recipient (no self-payment) *)
       (asserts (negb (String.eqb sender recipient)) ERR_INVALID_SENDER
          ok_true)).

Definition is_amount_sufficient (amount required : N) : bool :=
  (required <=? amount)%N.

Definition is_recipient_valid (actual expected : string) : bool :=
  String.eqb actual expected.

Definition get_usdcx_contract : string := USDCX_CONTRACT.

(** Clarity's arithmetic on [uint]. *)
Definition in_range (n : N) : option N :=
  if (n <? uint_bound)%N then Some n else None.

Definition uint_sub (a b : N) : option N :=
  if (b <=? a)%N then Some (a - b)%N else None.

Definition uint_mul (a b : N) : option N := in_range (a * b).

Definition uint_pow (a b : N) : option N := in_range (a ^ b).

Definition uint_div (a b : N) : option N :=
  if (b =? 0)%N then None else Some (a / b)%N.

Definition to_base_units (display_amount display_decimals : N) : option N :=
  let usdcx_decimals := 6%N in
  if (display_decimals <=? usdcx_decimals)%N
  then
    e ← uint_sub usdcx_decimals display_decimals;
    p ← uint_pow 10 e;
    uint_mul display_amount p
  else
    e ← uint_sub display_decimals usdcx_decimals;
    p ← uint_pow 10 e;
    uint_div display_amount p.

Definition get_standard_payment_amount : N := 100000.

End PaymentVerifier.

(** ** Programs that talk to the outside

  An [async] function that awaits answers from the network or from a
  library is a computation in [Run.M]: it threads the log of the calls
  made so far and stops at the first [throw] (a rejected promise). *)

Module Run.

Section WithCalls.
Context {Call Err : Type}.

Definition M (A : Type) : Type := list Call -> list Call * (Err + A).

Definition ret {A} (a : A) : M A := fun log => (log, inr a).

Definition throw {A} (e : Err) : M A := fun log => (log, inl e).

Definition bind {A B} (m : M A) (k : A -> M B) : M B := fun log =>
  match m log with
  | (log', inr a) => k a log'
  | (log', inl e) => (log', inl e)
  end.

(** A value that is there, or a [throw]. *)
Definition require {A} (v : option A) (e : Err) : M A :=
  match v with
  | Some a => ret a
  | None => throw e
  end.

(** A library call that returns or throws. *)
Definition lift {A} (v : Err + A) : M A := fun log => (log, v).

(** An awaited call: it is logged, then answered by a function of the
    log (the call just made is its last entry); the answer is a value,
    or the error the promise rejects with. *)
Definition await {A} (c : Call) (answer : list Call -> Err + A) : M A :=
  fun log => let log' := log ++ [c] in (log', answer log').

Definition or_reject {A} (v : option A) (e : Err) : Err + A :=
  match v with
  | Some a => inr a
  | None => inl e
  end.

(** A run starts with an empty log. *)
Definition run {A} (m : M A) : list Call * (Err + A) := m [].

End WithCalls.

Arguments M : clear implicits.

(** The [x ← m; k] notation of stdpp for [bind]. *)
#[global] Instance M_bind {Call Err} : MBind (M Call Err) :=
  fun A B k m => bind m k.
#[global] Instance M_ret {Call Err} : MRet (M Call Err) :=
  fun A a => ret a.

End Run.

(** ** BridgeDepositFlow (the deposit script importing helper.js) *)

Module BridgeDepositFlow.
Import Run.

Record Config := {
  PRIVATE_KEY : option string;          (* process.env.ETHEREUM_PRIVATE_KEY *)
  X_RESERVE_CONTRACT : string;
  ETH_USDC_CONTRACT : string;
  STACKS_DOMAIN : Z;
  STACKS_RECIPIENT : string;
  DEPOSIT_AMOUNT : string;
  MAX_FEE : string;
}.

Definition config (env_key : option string) : Config := {|
  PRIVATE_KEY := env_key;
  X_RESERVE_CONTRACT := "0x008888878f94C0d87defdf0B07f46B93C1934442";
  ETH_USDC_CONTRACT := "0x1c7D4B196Cb0C7B01d743Fbc6116a902379C7238";
  STACKS_DOMAIN := 10003;
  STACKS_RECIPIENT := "ST3Q6YCK0E2SDAA1KS7X546NY02F12D88RZHAH2P3";
  DEPOSIT_AMOUNT := "1.00";
  MAX_FEE := "0";
|}.

(** The two contract writes of the flow, with their arguments. *)
Inductive Transaction : Type :=
| approve (token spender : string) (amount : Z)
| depositToRemote (bridge : string) (value remoteDomain : Z)
    (remoteRecipient localToken : string) (maxFee : Z) (hookData : string).

(** What the script asks of the RPC node. *)
Inductive Call : Type :=
| getBalance (address : string)
| readContract_balanceOf (token account : string)
| writeContract (tx : Transaction)
| waitForTransactionReceipt (hash : string).

(** viem and the chain behind it. [None] is a thrown error. *)
Record Chain := {
  privateKeyToAccount : string -> option string;
  parseUnits : string -> nat -> option Z;
  eth_getBalance : string -> option Z;
  balanceOf : string -> string -> option Z;
  submit : Transaction -> option string;
  receipt : string -> option unit;
}.

Inductive error : Type :=
| PrivateKeyMissing
| InvalidPrivateKey
| InvalidDecimalNumber (value : string)
| ReadFailed (c : Call)
| InsufficientBalance (required : string)
| Codec (e : AddressCodec.error)
| SubmissionFailed (tx : Transaction)
| ConfirmationFailed (hash : string).

(** [main()]. It has no [return]: a run that reaches its end resolves to
    [undefined], the deposit hash having been printed only. *)
Definition main (config : Config) (chain : Chain) : M Call error unit :=
  (* if (!config.PRIVATE_KEY): undefined and the empty string are falsy *)
  key ←
    match PRIVATE_KEY config with
    | Some k => if String.eqb k "" then throw PrivateKeyMissing else ret k
    | None => throw PrivateKeyMissing
    end;
  address ← require (privateKeyToAccount chain key) InvalidPrivateKey;
  ethBalance ← await (getBalance address) (fun _ =>
    or_reject (eth_getBalance chain address) (ReadFailed (getBalance address)));
  value ← require (parseUnits chain (DEPOSIT_AMOUNT config) 6)
    (InvalidDecimalNumber (DEPOSIT_AMOUNT config));
  maxFee ← require (parseUnits chain (MAX_FEE config) 6)
    (InvalidDecimalNumber (MAX_FEE config));
  (* Check USDC balance *)
  let read := readContract_balanceOf (ETH_USDC_CONTRACT config) address in
  usdcBalance ← await read (fun _ =>
    or_reject (balanceOf chain (ETH_USDC_CONTRACT config) address)
      (ReadFailed read));
  if (usdcBalance <? value)%Z
  then throw (InsufficientBalance (DEPOSIT_AMOUNT config))
  else
    (* Encode Stacks address to bytes32 using c32 decoding *)
    remoteRecipient ←
      match AddressCodec.encodeStacksAddress (STACKS_RECIPIENT config) with
      | AddressCodec.Ok hex => ret hex
      | AddressCodec.Throw e => throw (Codec e)
      end;
    (* Approve USDC *)
    let approval :=
      approve (ETH_USDC_CONTRACT config) (X_RESERVE_CONTRACT config) value in
    approveTxHash ← await (writeContract approval) (fun _ =>
      or_reject (submit chain approval) (SubmissionFailed approval));
    _ ← await (waitForTransactionReceipt approveTxHash) (fun _ =>
      or_reject (receipt chain approveTxHash)
        (ConfirmationFailed approveTxHash));
    (* Deposit *)
    let deposit :=
      depositToRemote (X_RESERVE_CONTRACT config) value (STACKS_DOMAIN config)
        remoteRecipient (ETH_USDC_CONTRACT config) maxFee "0x" in
    depositTxHash ← await (writeContract deposit) (fun _ =>
      or_reject (submit chain deposit) (SubmissionFailed deposit));
    _ ← await (waitForTransactionReceipt depositTxHash) (fun _ =>
      or_reject (receipt chain depositTxHash)
        (ConfirmationFailed depositTxHash));
    ret tt.

(** The transactions a run has submitted, in order. *)
Definition submitted (log : list Call) : list Transaction :=
  omap (fun c => match c with writeContract tx => Some tx | _ => None end) log.

(** A chain on which the caller holds [usdc] base units of the token and
    every submission is accepted and confirmed. *)
Definition test_chain (usdc : Z) : Chain := {|
  privateKeyToAccount := fun _ => Some "0xf39Fd6e51aad88F6F4ce6aB8827279cffFb92266";
  parseUnits := fun value _ =>
    if String.eqb value "1.00" then Some 1000000%Z
    else if String.eqb value "0" then Some 0%Z else None;
  eth_getBalance := fun _ => Some 0%Z;
  balanceOf := fun _ _ => Some usdc;
  submit := fun tx =>
    Some match tx with
         | approve _ _ _ => "0xa1"
         | depositToRemote _ _ _ _ _ _ _ => "0xd2"
         end;
  receipt := fun _ => Some tt;
|}.

End BridgeDepositFlow.

(** ** PaymentGateway (the lumine-gateway package) *)

Module PaymentGateway.

Record PaymentConfig := {
  amount : string;
  recipient : option string;
  network : option string;
}.

(** A header of [GatewayRequest.headers]: [string | string[]]; a key
    that is absent, or bound to [undefined], looks up as [None]. *)
Inductive header : Type :=
| one (value : string)
| many (values : list string).

Record GatewayRequest := { headers : gmap string header }.

(** A response object, as far as the handler probes it: whether it has a
    [setHeader] method and whether it has a [set] method. The interface
    [GatewayResponse] requires [setHeader] and leaves [set] optional. *)
Record GatewayResponse := {
  has_setHeader : bool;
  has_set : bool;
}.

Inductive json : Type :=
| jstr (s : string)
| jobj (fields : list (string * json)).

(** The calls the handler makes on [res] and [next], in order. *)
Inductive Effect : Type :=
| res_setHeader (name value : string)
| res_set (name value : string)
| res_status (code : Z)
| res_json (body : json)
| call_next.

(** JavaScript truthiness of a header value: the empty string and
    [undefined] are falsy, every other string and every array is truthy. *)
Definition truthy (v : option header) : bool :=
  match v with
  | None => false
  | Some (one s) => negb (String.eqb s "")
  | Some (many _) => true
  end.

(** [requirePayment(config)], with the environment variable the default
    recipient is read from; the result is the handler. *)
Definition requirePayment (config : PaymentConfig)
    (AGENTPAY_SERVER_WALLET : option string)
  : GatewayRequest -> GatewayResponse -> list Effect :=
  let amount := amount config in
  let recipient :=
    match recipient config with
    | Some r => r
    | None => default "" AGENTPAY_SERVER_WALLET
    end in
  let network := default "stacks-testnet" (network config) in
  fun req res =>
    (* Check for payment proof in headers (simplified check) *)
    let paymentProof := headers req !! "x-payment-txid" in
    if truthy paymentProof then [call_next]
    else
      (* No payment: return 402 Payment Required *)
      let setHeader :=
        if has_setHeader res then Some res_setHeader
        else if has_set res then Some res_set
        else None in
      match setHeader with
      | Some setHeader =>
          [setHeader "X-Payment-Amount" amount;
           setHeader "X-Payment-Recipient" recipient;
           setHeader "X-Payment-Network" network]
      | None => []
      end ++
      [res_status 402;
       res_json (jobj [
         ("error", jstr "Payment Required");
         ("message", jstr "This endpoint requires payment to access");
         ("payment", jobj [
            ("amount", jstr amount);
            ("recipient", jstr recipient);
            ("network", jstr network);
            ("currency", jstr "USDCx")])])].

(** What a server built on the handler has done once the calls are
    carried out: the response it has written, and whether the request
    went on to the next handler. *)
Record Sent := {
  status : option Z;
  sent_headers : gmap string string;
  body : option json;
  forwarded : bool;
}.

Definition nothing_sent : Sent :=
  {| status := None; sent_headers := ∅; body := None; forwarded := false |}.

Definition carry_out (s : Sent) (e : Effect) : Sent :=
  match e with
  | res_setHeader name value | res_set name value =>
      {| status := status s; sent_headers := <[name := value]> (sent_headers s);
         body := body s; forwarded := forwarded s |}
  | res_status code =>
      {| status := Some code; sent_headers := sent_headers s;
         body := body s; forwarded := forwarded s |}
  | res_json b =>
      {| status := status s; sent_headers := sent_headers s;
         body := Some b; forwarded := forwarded s |}
  | call_next =>
      {| status := status s; sent_headers := sent_headers s;
         body := body s; forwarded := true |}
  end.

Definition sent (effects : list Effect) : Sent :=
  foldl carry_out nothing_sent effects.

(** The 402 response for the terms [amount], [recipient], [network]. *)
Definition payment_required (amount recipient network : string) (s : Sent)
  : Prop :=
  status s = Some 402%Z /\
  sent_headers s !! "X-Payment-Amount" = Some amount /\
  sent_headers s !! "X-Payment-Recipient" = Some recipient /\
  sent_headers s !! "X-Payment-Network" = Some network /\
  body s = Some (jobj [
    ("error", jstr "Payment Required");
    ("message", jstr "This endpoint requires payment to access");
    ("payment", jobj [
       ("amount", jstr amount);
       ("recipient", jstr recipient);
       ("network", jstr network);
       ("currency", jstr "USDCx")])]) /\
  forwarded s = false.

(** The terms a configuration stands for, defaults applied. *)
Definition terms (config : PaymentConfig) (wallet : option string)
  : string * string * string :=
  (amount config,
   match recipient config with
   | Some r => r
   | None => default "" wallet
   end,
   default "stacks-testnet" (network config)).

End PaymentGateway.

(** ** PaymentClient (packages/lumine-client/src/index.ts) *)

Module PaymentClient.
Import Run.

Record LumineClientConfig := { apiBaseUrl : string }.

(** Values of a [RequestInit] and of a JSON body. *)
Inductive value : Type :=
| str (s : string)
| obj (fields : list (string * value)).

(** A [RequestInit] is an object used as a map from field names:
    [gmap string value]. *)

(** A [Response], as far as [get] looks at it: its status, its headers,
    and what [json()] resolves to ([None]: the body is not JSON and
    [json()] rejects). *)
Record Response := {
  status : Z;
  headers : gmap string string;
  json : option value;
}.

(** [response.ok]: the status is in the range 200-299. *)
Definition ok (r : Response) : bool :=
  (200 <=? status r)%Z && (status r <=? 299)%Z.

Inductive Call : Type :=
| fetch (url : string) (init : gmap string value).

Inductive error : Type :=
| FetchFailed (c : Call)
| PaymentFailed (status : Z)
| BodyNotJson.

(** The servers: what each [fetch] resolves to, given all the calls made
    so far, this one included ([None]: the fetch rejects). *)
Definition World := list Call -> option Response.

(** [{ ...options, method: "GET" }]; spreading [undefined] adds nothing. *)
Definition spread_GET (options : option (gmap string value)) : gmap string value :=
  <["method" := str "GET"]> (default ∅ options).

Definition gated_request (url : string) (options : option (gmap string value))
  : Call :=
  fetch url (spread_GET options).

(** [fetch(`${apiBaseUrl}/demo/run`, { method: "POST", headers: ... })] *)
Definition settlement_trigger (config : LumineClientConfig) : Call :=
  fetch (apiBaseUrl config +:+ "/demo/run")
    (<["method" := str "POST"]>
       (<["headers" := obj [("Content-Type", str "application/json")]]> ∅)).

Definition do_fetch (world : World) (c : Call) : M Call error Response :=
  await c (fun log => or_reject (world log) (FetchFailed c)).

(** [createLumineClient(config).get(url, options)]. The three payment
    headers of a 402 response are read only to be logged, and logging is
    left out. *)
Definition get (config : LumineClientConfig) (world : World)
    (url : string) (options : option (gmap string value))
  : M Call error Response :=
  (* Perform initial request *)
  response ← do_fetch world (gated_request url options);
  (* If not 402, return response as-is *)
  if negb (status response =? 402)%Z then ret response
  else
    (* Trigger demo payment flow *)
    demoResponse ← do_fetch world (settlement_trigger config);
    if negb (ok demoResponse) then throw (PaymentFailed (status demoResponse))
    else
      demoResult ← require (json demoResponse) BodyNotJson;
      (* Retry the original request *)
      retryResponse ← do_fetch world (gated_request url options);
      ret retryResponse.

(** Whether a call is an HTTP request with method [method] to [url]. *)
Definition is_request (method url : string) (c : Call) : bool :=
  match c with
  | fetch u init =>
      String.eqb u url &&
      match init !! "method" with
      | Some (str m) => String.eqb m method
      | _ => false
      end
  end.

(** The requests to the gated resource and the calls to the settlement
    trigger among the calls of a run. *)
Definition gated_requests (url : string) (log : list Call) : nat :=
  length (List.filter (is_request "GET" url) log).

Definition trigger_calls (config : LumineClientConfig) (log : list Call)
  : nat :=
  length (List.filter (is_request "POST" (apiBaseUrl config +:+ "/demo/run")) log).

(** The sentence of the specification on a successful settlement, read
    literally: whenever the first answer is a 402 and the trigger answers
    with a 2xx status, the gated request is issued a second time. *)
Definition retried_after_every_success : Prop :=
  forall config world url options first paid,
    world [gated_request url options] = Some first ->
    status first = 402%Z ->
    world [gated_request url options; settlement_trigger config] = Some paid ->
    ok paid = true ->
    gated_requests url (fst (run (get config world url options))) = 2%nat.

(** Servers that answer the calls of one [get] with the scripted
    responses, in order. *)
Definition scripted (answers : list Response) : World :=
  fun log => answers !! (length log - 1)%nat.

Definition response (code : Z) (body : option value) : Response :=
  {| status := code; headers := ∅; json := body |}.

Definition example_config : LumineClientConfig :=
  {| apiBaseUrl := "http://localhost:8000" |}.

Definition example_url : string := "http://api.example.com/paid-endpoint".

End PaymentClient.

(** ** SignerService (usdcx-bridge/stacks-signer.js) *)

Module SignerService.
Import Js Run.

(** A thrown value: its [message], if it has one, and [String(error)]. *)
Record exn := {
  message : option string;
  shown : string;
}.

(** [error.message || String(error)] *)
Definition error_text (e : exn) : string :=
  match message e with
  | Some m => if String.eqb m "" then shown e else m
  | None => shown e
  end.

(** *** [BigInt(amountStr)] on a string

    ECMAScript's StringToBigInt: white space is trimmed; the empty
    string is 0; otherwise the text is decimal digits with an optional
    sign, or unsigned digits after 0x, 0o or 0b; anything else throws a
    [SyntaxError]. *)

(** StrWhiteSpaceChar below U+0100: TAB, LF, VT, FF, CR (U+0009-U+000D),
    the space U+0020 and the no-break space U+00A0. *)
Definition is_white_space (c : ascii) : bool :=
  let n := nat_of_ascii c in
  ((9 <=? n)%nat && (n <=? 13)%nat) || (n =? 32)%nat || (n =? 160)%nat.

Fixpoint trim_start (l : list ascii) : list ascii :=
  match l with
  | c :: rest => if is_white_space c then trim_start rest else l
  | [] => []
  end.

Definition trim (l : list ascii) : list ascii :=
  rev (trim_start (rev (trim_start l))).

Definition digit_value (base : Z) (c : ascii) : option Z :=
  v ← AddressCodec.hex_value c;
  if (Z.of_N v <? base)%Z then Some (Z.of_N v) else None.

Fixpoint digits_from (base acc : Z) (l : list ascii) : option Z :=
  match l with
  | [] => Some acc
  | c :: rest =>
      v ← digit_value base c;
      digits_from base (acc * base + v)%Z rest
  end.

(** One digit at least. *)
Definition digits (base : Z) (l : list ascii) : option Z :=
  match l with
  | [] => None
  | _ => digits_from base 0 l
  end.

Definition StringToBigInt (s : string) : option Z :=
  match trim (chars s) with
  | [] => Some 0%Z
  | "0"%char :: "x"%char :: ds | "0"%char :: "X"%char :: ds => digits 16 ds
  | "0"%char :: "o"%char :: ds | "0"%char :: "O"%char :: ds => digits 8 ds
  | "0"%char :: "b"%char :: ds | "0"%char :: "B"%char :: ds => digits 2 ds
  | "+"%char :: ds => digits 10 ds
  | "-"%char :: ds => Z.opp <$> digits 10 ds
  | ds => digits 10 ds
  end.

Definition SyntaxError (s : string) : exn :=
  {| message := Some ("Cannot convert " +:+ s +:+ " to a BigInt");
     shown := "SyntaxError: Cannot convert " +:+ s +:+ " to a BigInt" |}.

(** *** The signing library and the network *)

Inductive ClarityValue : Type :=
| uint (n : Z)
| principal (address : string)
| none.

(** The options of [makeContractCall] that vary or matter here; the
    network, the anchor mode and the (empty, [Allow]) post-conditions are
    constants of the source. *)
Record TxOptions := {
  contractAddress : string;
  contractName : string;
  functionName : string;
  functionArgs : list ClarityValue;
  senderKey : string;
  fee : Z;
}.

(** The answer of [broadcastTransaction]; a field that is [undefined] is
    [None]. *)
Record BroadcastResponse := {
  error : option string;
  reason : option string;
  txid : option string;
}.

(** @stacks/transactions and the node it broadcasts to. Every function
    returns, or throws an [exn]. *)
Record Stacks := {
  getAddressFromPrivateKey : string -> exn + string;
  uintCV : Z -> exn + ClarityValue;
  principalCV : string -> exn + ClarityValue;
  makeContractCall : TxOptions -> exn + string;
  broadcastTransaction : string -> exn + BroadcastResponse;
}.

(** The calls that handle the key, or a transaction signed with it. *)
Inductive Call : Type :=
| derive_address (privateKey : string)
| sign (options : TxOptions)
| broadcast (transaction : string).

(** *** The process *)

Inductive json : Type :=
| jbool (b : bool)
| jstr (s : string).

(** One line of standard output: [console.log(JSON.stringify(object))].
    A field whose value is [undefined] is not printed. *)
Definition line := list (string * json).

Definition field (name : string) (v : option string) : line :=
  match v with
  | Some s => [(name, jstr s)]
  | None => []
  end.

(** How the process ends: [process.exit(code)]; [main] running to its
    end (exit code 0); or the promise of [main()] rejecting with nobody
    to catch it, which ends the process with a non-zero code and a
    stack trace on standard error. *)
Inductive Ending : Type :=
| exit (code : Z)
| completed
| unhandled_rejection (e : exn).

Record Outcome := {
  stdout : list line;
  calls : list Call;
  ending : Ending;
}.

Definition USDCX_CONTRACT : string * string :=
  ("ST1PQHQKV0RJXZFY1DGX8MNSNYVE3VGZJSRTPGZGM", "usdcx").

(** JavaScript truthiness of an optional string. *)
Definition truthy (v : option string) : bool :=
  match v with
  | Some s => negb (String.eqb s "")
  | None => false
  end.

(** The body of the [try] block: it ends by printing one line and either
    calling [process.exit(1)] or falling through, or it throws. *)
Definition try_block (stacks : Stacks)
    (privateKey recipient amountStr : string) (amount : Z)
  : M Call exn (line * Ending) :=
  let '(contractAddress, contractName) := USDCX_CONTRACT in
  (* Derive sender address from private key *)
  senderAddress ← await (derive_address privateKey) (fun _ =>
    getAddressFromPrivateKey stacks privateKey);
  a ← lift (uintCV stacks amount);
  s ← lift (principalCV stacks senderAddress);
  r ← lift (principalCV stacks recipient);
  let txOptions := {|
    contractAddress := contractAddress;
    contractName := contractName;
    functionName := "transfer";
    functionArgs := [a; s; r; none];
    senderKey := privateKey;
    fee := 10000;
  |} in
  (* Build and sign the transaction *)
  transaction ← await (sign txOptions) (fun _ =>
    makeContractCall stacks txOptions);
  (* Broadcast to testnet *)
  broadcastResponse ← await (broadcast transaction) (fun _ =>
    broadcastTransaction stacks transaction);
  if truthy (error broadcastResponse)
  then
    ret ([("success", jbool false)]
           ++ field "error" (error broadcastResponse)
           ++ field "reason" (reason broadcastResponse),
         exit 1)
  else
    ret ([("success", jbool true)]
           ++ field "txid" (txid broadcastResponse)
           ++ [("sender", jstr senderAddress);
               ("recipient", jstr recipient);
               ("amount", jstr amountStr)],
         completed).

Definition usage : line :=
  [("success", jbool false);
   ("error", jstr "Usage: node stacks-signer.js <privateKey> <recipient> <amount>")].

(** [main()], given [process.argv.slice(2)]. *)
Definition main (stacks : Stacks) (args : list string) : Outcome :=
  if (length args <? 3)%nat
  then {| stdout := [usage]; calls := []; ending := exit 1 |}
  else
    let privateKey := nth 0 args "" in
    let recipient := nth 1 args "" in
    let amountStr := nth 2 args "" in
    match StringToBigInt amountStr with
    | None =>
        {| stdout := []; calls := [];
           ending := unhandled_rejection (SyntaxError amountStr) |}
    | Some amount =>
        (* Ensure private key has compressed key suffix *)
        let privateKey :=
          if (String.length privateKey =? 64)%nat then privateKey +:+ "01"
          else privateKey in
        match run (try_block stacks privateKey recipient amountStr amount) with
        | (log, inr (printed, how)) =>
            {| stdout := [printed]; calls := log; ending := how |}
        | (log, inl e) =>
            {| stdout := [[("success", jbool false);
                           ("error", jstr (error_text e))]];
               calls := log; ending := exit 1 |}
        end
    end.

(** A line that reports a failure. *)
Definition is_failure_line (l : line) : Prop :=
  l !! 0%nat = Some ("success", jbool false).

(** The service boundary of the specification: whatever goes wrong, one
    JSON failure line is printed. *)
Definition reports_every_failure (stacks : Stacks) (args : list string)
  : Prop :=
  ending (main stacks args) = completed \/
  exists l, stdout (main stacks args) = [l] /\ is_failure_line l.

(** A library that accepts every key and principal, and a node that
    answers every broadcast with [answer]. *)
Definition test_stacks (answer : BroadcastResponse) : Stacks := {|
  getAddressFromPrivateKey := fun _ =>
    inr "ST3Q6YCK0E2SDAA1KS7X546NY02F12D88RZHAH2P3";
  uintCV := fun n => inr (uint n);
  principalCV := fun a => inr (principal a);
  makeContractCall := fun _ => inr "0x8080";
  broadcastTransaction := fun _ => inr answer;
|}.

Definition test_key : string :=
  "753b7cc01a1a2e86221266a154af739463fce51219d97e4f856cd7200c3bd2a6".

(** A decimal digit, 0 to 9. *)
Definition is_decimal_digit (c : ascii) : bool :=
  let n := nat_of_ascii c in (48 <=? n)%nat && (n <=? 57)%nat.

End SignerService.

(** * Properties *)

Section AddressCodecFacts.
Import Js AddressCodec.

Lemma indexOf_from_bound i s c k :
  indexOf_from i s c = Some k -> (i <= k < i + String.length s)%nat.
Proof.
  revert i; induction s as [|a s IH]; intros i; simpl; [discriminate|].
  destruct (Ascii.eqb a c).
  - intros [= <-]. lia.
  - intros H. apply IH in H. lia.
Qed.

Lemma indexOf_alphabet_bound c k :
  indexOf C32_ALPHABET c = Some k -> (k < 32)%nat.
Proof.
  intros H. apply indexOf_from_bound in H. simpl in H. lia.
Qed.

(** A 5-bit group reads back as the index it was made from. *)
Lemma parseInt2_bits5 k : (k < 32)%nat -> parseInt2 (bits5 k) = N.of_nat k.
Proof.
  intros H. do 32 (destruct k as [|k]; [reflexivity|]). lia.
Qed.

Lemma length_bits5 k : length (bits5 k) = 5%nat.
Proof. reflexivity. Qed.

(** Strings. *)
Lemma append_cons c (s t : string) : String c s +:+ t = String c (s +:+ t).
Proof. reflexivity. Qed.

Lemma length_append (s t : string) :
  String.length (s +:+ t) = (String.length s + String.length t)%nat.
Proof.
  induction s as [|c s IH]; [reflexivity|].
  rewrite append_cons. cbn [String.length]. by rewrite IH.
Qed.

Lemma append_assoc_str (s t u : string) : (s +:+ t) +:+ u = s +:+ (t +:+ u).
Proof.
  induction s as [|c s IH]; [reflexivity|].
  rewrite !append_cons. by rewrite IH.
Qed.

(** The first loop of [c32Decode], piece by piece. *)
Lemma collect_bits_acc upper acc :
  collect_bits upper acc = (b ← collect_bits upper []; Ok (acc ++ b)).
Proof.
  revert acc; induction upper as [|c rest IH]; intros acc; cbn [collect_bits].
  - cbn. by rewrite app_nil_r.
  - destruct (indexOf C32_ALPHABET c) as [k|]; [|reflexivity].
    rewrite (IH (acc ++ bits5 k)), (IH ([] ++ bits5 k)).
    destruct (collect_bits rest []) as [b|e]; cbn [mbind result_bind];
      [|reflexivity].
    by rewrite <- List.app_assoc.
Qed.

Lemma collect_bits_append s t acc :
  collect_bits (s +:+ t) acc = (b ← collect_bits s acc; collect_bits t b).
Proof.
  revert acc; induction s as [|c s IH]; intros acc; [reflexivity|].
  rewrite append_cons. cbn [collect_bits].
  destruct (indexOf C32_ALPHABET c); [apply IH|reflexivity].
Qed.


Lemma collect_bits_group_of_char c g :
  group_of_char c = Some g -> collect_bits (upper_of_char c) [] = Ok g.
Proof.
  destruct c as [[] [] [] [] [] [] [] []]; vm_compute;
    first [discriminate | by intros [= <-]].
Qed.



(** On the texts made of symbols of the alphabet the loop computes their
    groups one by one. *)
Lemma collect_bits_groups input acc all :
  group_bits input = Some all ->
  collect_bits (toUpperCase input) acc = Ok (acc ++ all).
Proof.
  revert acc all; induction input as [|c rest IH]; intros acc all;
    cbn [group_bits toUpperCase].
  - intros [= <-]. cbn. by rewrite app_nil_r.
  - destruct (group_of_char c) as [g|] eqn:Hg; cbn [mbind option_bind];
      [|discriminate].
    destruct (group_bits rest) as [r|]; cbn [mbind option_bind];
      [|discriminate].
    intros [= <-]. rewrite collect_bits_append, collect_bits_acc.
    rewrite (collect_bits_group_of_char c g Hg). cbn [mbind result_bind].
    rewrite (IH _ r eq_refl). by rewrite <- List.app_assoc.
Qed.

(** The two alignment loops against their closed forms. *)
Lemma mod8_succ n : (S n mod 8 <> 0 -> S n mod 8 = S (n mod 8))%nat.
Proof.
  intros H.
  pose proof (Nat.div_mod_eq n 8). pose proof (Nat.div_mod_eq (S n) 8).
  pose proof (Nat.mod_upper_bound n 8). pose proof (Nat.mod_upper_bound (S n) 8).
  lia.
Qed.

Lemma trim_leading_zeros_cons_false rest :
  trim_leading_zeros (false :: rest) =
  if (S (length rest) mod 8 =? 0)%nat then false :: rest
  else trim_leading_zeros rest.
Proof. reflexivity. Qed.

Lemma trim_leading_zeros_spec b : trim_leading_zeros b = trim_spec b.
Proof.
  induction b as [|x b IH]; [reflexivity|].
  destruct x.
  - unfold trim_spec. cbn [leading_zeros trim_leading_zeros].
    by rewrite Nat.min_0_r.
  - rewrite trim_leading_zeros_cons_false. unfold trim_spec.
    cbn [leading_zeros length].
    destruct (Nat.eqb_spec (S (length b) mod 8) 0) as [E|E].
    + by rewrite E.
    + rewrite (mod8_succ _ E), <- Nat.succ_min_distr. cbn [drop].
      exact IH.
Qed.

Lemma pad_to_byte_spec fuel b :
  ((8 - length b mod 8) mod 8 <= fuel)%nat -> pad_to_byte fuel b = pad_spec b.
Proof.
  revert b; induction fuel as [|fuel IH]; intros b Hfuel;
    cbn [pad_to_byte]; unfold pad_spec.
  - by replace ((8 - length b mod 8) mod 8)%nat with 0%nat by lia.
  - destruct (Nat.eqb_spec (length b mod 8) 0) as [E|E].
    + by rewrite E.
    + pose proof (Nat.mod_upper_bound (length b) 8 ltac:(lia)) as Hlt.
      rewrite (Nat.mod_small (8 - length b mod 8) 8) in * by lia.
      assert (Hs : (S (length b) mod 8 = (S (length b mod 8)) mod 8)%nat).
      { rewrite <- Nat.add_1_r, <- (Nat.add_1_r (length b mod 8)).
        by rewrite <- Nat.Div0.add_mod_idemp_l. }
      rewrite IH; unfold pad_spec; cbn [length]; rewrite Hs.
      * destruct (decide (length b mod 8 = 7)%nat) as [E7|E7].
        -- rewrite E7. reflexivity.
        -- rewrite (Nat.mod_small (S (length b mod 8)) 8) by lia.
           rewrite (Nat.mod_small (8 - S (length b mod 8)) 8) by lia.
           replace (8 - length b mod 8)%nat
             with (S (8 - S (length b mod 8))) by lia.
           rewrite replicate_S_end, <- List.app_assoc. reflexivity.
      * destruct (decide (length b mod 8 = 7)%nat) as [E7|E7].
        -- rewrite E7. simpl. lia.
        -- rewrite (Nat.mod_small (S (length b mod 8)) 8) by lia.
           rewrite (Nat.mod_small (8 - S (length b mod 8)) 8) by lia. lia.
Qed.

Lemma length_pad_spec b : (length (pad_spec b) mod 8 = 0)%nat.
Proof.
  unfold pad_spec. rewrite length_app, length_replicate.
  pose proof (Nat.mod_upper_bound (length b) 8 ltac:(lia)) as Hlt.
  destruct (decide (length b mod 8 = 0)%nat) as [E|E].
  - rewrite E. simpl. exact E.
  - rewrite (Nat.mod_small (8 - length b mod 8) 8) by lia.
    rewrite (Nat.div_mod_eq (length b) 8) at 2.
    replace (8 - length b mod 8 + (8 * (length b / 8) + length b mod 8))%nat
      with ((1 + length b / 8) * 8)%nat by lia.
    apply Nat.Div0.mod_mul.
Qed.

(** Eight bits and one byte carry the same information. *)
Lemma byte_of_bits_of_byte l :
  length l = 8%nat -> bits_of_byte (to_uint8 (parseInt2 l)) = l.
Proof.
  do 8 (destruct l as [|[] l]; try discriminate);
    destruct l; try discriminate; intros _; vm_compute; reflexivity.
Qed.

Lemma bits_of_byte_of_bits x : to_uint8 (parseInt2 (bits_of_byte x)) = x.
Proof. destruct x; vm_compute; reflexivity. Qed.

Lemma bits_of_bytes_inj : Inj (=) (=) bits_of_bytes.
Proof.
  intros xs; induction xs as [|x xs IH]; intros [|y ys]; try discriminate;
    [reflexivity|].
  unfold bits_of_bytes; cbn [flat_map]. intros H.
  apply app_inj_1 in H as [Hx Hr]; [|reflexivity].
  f_equal; [|by apply IH].
  by rewrite <- (bits_of_byte_of_bits x), Hx, bits_of_byte_of_bits.
Qed.

Lemma length_bits_of_bytes bytes :
  length (bits_of_bytes bytes) = (8 * length bytes)%nat.
Proof.
  induction bytes as [|x xs IH]; [reflexivity|].
  unfold bits_of_bytes in *; cbn [flat_map]. rewrite length_app, IH.
  cbn [length bits_of_byte map]. lia.
Qed.

Lemma bytes_loop_cons fuel x b :
  bytes_loop (S fuel) (x :: b) =
  to_uint8 (parseInt2 (take 8 (x :: b))) :: bytes_loop fuel (drop 8 (x :: b)).
Proof. reflexivity. Qed.

(** The last loop cuts an aligned bit string into its bytes. *)
Lemma bytes_loop_spec fuel b :
  (length b <= fuel)%nat -> (length b mod 8 = 0)%nat ->
  bits_of_bytes (bytes_loop fuel b) = b.
Proof.
  revert b; induction fuel as [|fuel IH]; intros b Hlen Hmod.
  - destruct b; [reflexivity|simpl in Hlen; lia].
  - destruct b as [|x b']; [reflexivity|].
    rewrite bytes_loop_cons. set (b := x :: b') in *.
    assert (8 <= length b)%nat as H8.
    { pose proof (Nat.div_mod_eq (length b) 8). subst b. simpl in *. lia. }
    unfold bits_of_bytes; cbn [flat_map]. fold (bits_of_bytes (bytes_loop fuel (drop 8 b))).
    rewrite byte_of_bits_of_byte by (rewrite length_take; lia).
    rewrite IH.
    + apply take_drop.
    + rewrite length_drop. lia.
    + rewrite length_drop.
      pose proof (Nat.div_mod_eq (length b) 8) as Hd. rewrite Hmod in Hd.
      replace (length b - 8)%nat with ((length b / 8 - 1) * 8)%nat by lia.
      apply Nat.Div0.mod_mul.
Qed.





(** Past the first loop: the collected bits are aligned and cut. *)
Lemma c32Decode_of_bits input all :
  collect_bits (toUpperCase input) [] = Ok all ->
  exists bytes, c32Decode input = Ok bytes /\
                bits_of_bytes bytes = align_spec all.
Proof.
  intros Hall. unfold c32Decode. rewrite Hall. cbn [mbind result_bind].
  eexists; split; [reflexivity|].
  rewrite trim_leading_zeros_spec, pad_to_byte_spec.
  - unfold align_spec. apply bytes_loop_spec; [lia|]. apply length_pad_spec.
  - pose proof (Nat.mod_upper_bound (8 - length (trim_spec all) mod 8) 8).
    lia.
Qed.

Lemma c32Decode_aligned input all :
  group_bits input = Some all ->
  exists bytes, c32Decode input = Ok bytes /\
                bits_of_bytes bytes = align_spec all.
Proof.
  intros Hall. apply c32Decode_of_bits.
  by rewrite (collect_bits_groups input [] all Hall).
Qed.




(** Hex rendering and its reading back. *)
Lemma length_toString_hex bytes :
  String.length (toString_hex bytes) = (2 * length bytes)%nat.
Proof.
  induction bytes as [|b bytes IH]; [reflexivity|].
  cbn [toString_hex]. rewrite length_append, IH. simpl. lia.
Qed.

Lemma toString_hex_app xs ys :
  toString_hex (xs ++ ys) = toString_hex xs +:+ toString_hex ys.
Proof.
  induction xs as [|x xs IH]; [reflexivity|].
  cbn [toString_hex app]. by rewrite IH, append_assoc_str.
Qed.

Lemma zeros_toString_hex m : zeros (2 * m) = toString_hex (replicate m x00).
Proof.
  induction m as [|m IH]; [reflexivity|].
  replace (2 * S m)%nat with (S (S (2 * m))) by lia.
  cbn [zeros replicate toString_hex]. by rewrite IH.
Qed.

Lemma bytes_of_digits_byte b rest :
  bytes_of_digits (hex_of_byte b +:+ rest) =
  (tail ← bytes_of_digits rest; Some (b :: tail)).
Proof. destruct b; reflexivity. Qed.

Lemma bytes_of_digits_toString_hex bytes :
  bytes_of_digits (toString_hex bytes) = Some bytes.
Proof.
  induction bytes as [|b bytes IH]; [reflexivity|].
  cbn [toString_hex]. by rewrite bytes_of_digits_byte, IH.
Qed.

Lemma bytes_of_hex_toString_hex bytes :
  bytes_of_hex ("0x" +:+ toString_hex bytes) = Some bytes.
Proof. apply bytes_of_digits_toString_hex. Qed.

Lemma bytes32FromBytes_padded bytes :
  (length bytes <= 32)%nat ->
  bytes32FromBytes bytes =
  Ok ("0x" +:+ toString_hex (replicate (32 - length bytes) x00 ++ bytes)).
Proof.
  intros Hlen. unfold bytes32FromBytes, pad.
  destruct (Nat.ltb_spec 32 (length bytes)) as [?|_]; [lia|].
  change (replace_0x ("0x" +:+ toString_hex bytes)) with (toString_hex bytes).
  rewrite length_toString_hex.
  destruct (Nat.ltb_spec (32 * 2) (2 * length bytes)) as [?|_]; [lia|].
  unfold padStart0. rewrite length_toString_hex, toString_hex_app.
  replace (32 * 2 - 2 * length bytes)%nat
    with (2 * (32 - length bytes))%nat by lia.
  by rewrite zeros_toString_hex.
Qed.

(** What [encodeRecipient] assembles in its 21-byte array. *)
Lemma recipient_array version hash160 :
  length hash160 = 20%nat ->
  typed_set (<[0%nat := version]> (replicate 21 x00)) hash160 1 =
  version :: hash160.
Proof.
  intros Hlen. unfold typed_set. rewrite Hlen. cbn.
  by rewrite app_nil_r.
Qed.

End AddressCodecFacts.

Section AddressCodecClaims.
Import Js AddressCodec.

(** C1. The scenario address "ST3Q6YCK0E2SDAA1KS7X546NY02F12D88RZHAH2P3",
    sent through the whole pipeline ([encodeStacksAddress]: prefix lookup,
    c32 decoding of the body, checksum drop, padding to 32 bytes), gives
    a 32-byte hex value: 11 zero bytes, then the version byte 0x1a, then
    the 20 bytes of the hash160 decoded from the body. *)
Theorem scenario_address_encoding :
  exists decoded hex,
    c32Decode (slice_from 2 scenario_address) = Ok decoded /\
    length decoded = 24%nat /\
    encodeStacksAddress scenario_address = Ok hex /\
    hex = "0x00000000000000000000001aee6f326070b2d52833c9fa521abe009e113508c7" /\
    bytes_of_hex hex = Some (replicate 11 x00 ++ [x1a] ++ take 20 decoded) /\
    length (replicate 11 x00 ++ [x1a] ++ take 20 decoded) = 32%nat.
Proof.
  eexists _, _.
  split; [vm_compute; reflexivity|].
  repeat split; vm_compute; reflexivity.
Qed.



(** C3, as the code has it. The prefix is compared after upper-casing
    it. When the upper-cased 2-character prefix is neither "ST" nor "SP",
    [encodeRecipient] throws [UnknownAddressPrefix]. With a known prefix, a
    body that does not decode passes its [InvalidCharacter] on; a body
    that decodes is refused with [MalformedBody] exactly when it is not
    24 bytes long, and otherwise the result is exactly 21 bytes: the
    version byte (0x1a for ST, 0x16 for SP) followed by the first 20
    decoded bytes, whatever the 4 checksum bytes are. *)
Theorem encodeRecipient_by_cases (address : string) :
  let prefix := toUpperCase (slice_to 2 address) in
  let body := slice_from 2 address in
  (prefix <> "ST" -> prefix <> "SP" ->
   encodeRecipient address = Throw (UnknownAddressPrefix prefix)) /\
  (forall version : byte,
      (prefix = "ST" /\ version = x1a) \/ (prefix = "SP" /\ version = x16) ->
      match c32Decode body with
      | Throw e => encodeRecipient address = Throw e
      | Ok decoded =>
          if decide (length decoded = 24%nat)
          then encodeRecipient address = Ok (version :: take 20 decoded) /\
               length (version :: take 20 decoded) = 21%nat
          else encodeRecipient address = Throw (MalformedBody (length decoded))
      end).
Proof.
  intros prefix body. unfold encodeRecipient. fold prefix. fold body. split.
  - intros Hst Hsp.
    destruct (String.eqb_spec prefix "ST") as [?|_]; [done|].
    destruct (String.eqb_spec prefix "SP") as [?|_]; [done|].
    reflexivity.
  - intros version Hv.
    assert ((if String.eqb prefix "ST" then Ok STACKS_TESTNET_P2PKH
             else if String.eqb prefix "SP" then Ok STACKS_MAINNET_P2PKH
             else Throw (UnknownAddressPrefix prefix)) = Ok version) as ->.
    { destruct Hv as [[-> ->]|[-> ->]]; reflexivity. }
    cbn [mbind result_bind].
    destruct (c32Decode body) as [decoded|e]; cbn [mbind result_bind];
      [|reflexivity].
    destruct (decide (length decoded = 24%nat)) as [Hlen|Hlen].
    + rewrite Hlen. cbn [Nat.eqb negb].
      assert (length (take 20 decoded) = 20%nat) as H20
        by (rewrite length_take; lia).
      rewrite (recipient_array _ _ H20). split; [reflexivity|].
      cbn [length]. by rewrite H20.
    + destruct (Nat.eqb_spec (length decoded) 24) as [?|_]; [done|].
      reflexivity.
Qed.

Lemma encodeRecipient_by_cases_witness :
  encodeRecipient "SX3Q6YCK0E2SDAA1KS7X546NY02F12D88RZHAH2P3" =
    Throw (UnknownAddressPrefix "SX") /\
  encodeRecipient "SP0" = Throw (MalformedBody 0) /\
  encodeRecipient scenario_address =
    Ok [x1a; xee; x6f; x32; x60; x70; xb2; xd5; x28; x33; xc9; xfa; x52;
        x1a; xbe; x00; x9e; x11; x35; x08; xc7].
Proof.
  split; [|split].
  - apply (proj1 (encodeRecipient_by_cases
                    "SX3Q6YCK0E2SDAA1KS7X546NY02F12D88RZHAH2P3"));
      vm_compute; discriminate.
  - exact (proj2 (encodeRecipient_by_cases "SP0") x16
             (or_intror (conj eq_refl eq_refl))).
  - exact (proj1 (proj2 (encodeRecipient_by_cases scenario_address) x1a
                    (or_introl (conj eq_refl eq_refl)))).
Defined.

(** C3 as stated fails: an address whose prefix is written "st" has a
    prefix outside {ST, SP}, and [encodeRecipient] encodes it all the
    same, as the testnet address it is in upper case. *)
Lemma lowercase_prefix_is_encoded :
  slice_to 2 "st3Q6YCK0E2SDAA1KS7X546NY02F12D88RZHAH2P3" = "st" /\
  encodeRecipient "st3Q6YCK0E2SDAA1KS7X546NY02F12D88RZHAH2P3" =
    Ok [x1a; xee; x6f; x32; x60; x70; xb2; xd5; x28; x33; xc9; xfa; x52;
        x1a; xbe; x00; x9e; x11; x35; x08; xc7] /\
  ~ unknown_prefix_refused_literally.
Proof.
  split; [reflexivity|]. split; [vm_compute; reflexivity|].
  intros Hclaim.
  destruct (Hclaim "st3Q6YCK0E2SDAA1KS7X546NY02F12D88RZHAH2P3")
    as [p Hp]; [vm_compute; discriminate..|].
  vm_compute in Hp. discriminate Hp.
Qed.

(** C8. [bytes32FromBytes] throws [InputTooLong] on every input longer
    than 32 bytes; on every input of at most 32 bytes it returns the hex
    form of the input left-padded with zero bytes to exactly 32 bytes;
    and it is idempotent: applied to the bytes its own output denotes, it
    returns that output again. *)
Theorem bytes32FromBytes_fixed_width (bytes : list byte) :
  ((32 < length bytes)%nat ->
   bytes32FromBytes bytes = Throw (InputTooLong (length bytes))) /\
  ((length bytes <= 32)%nat ->
   exists hex out,
     bytes32FromBytes bytes = Ok hex /\
     bytes_of_hex hex = Some out /\
     out = replicate (32 - length bytes) x00 ++ bytes /\
     length out = 32%nat /\
     bytes32FromBytes out = Ok hex).
Proof.
  split.
  - intros Hlen. unfold bytes32FromBytes.
    by destruct (Nat.ltb_spec 32 (length bytes)) as [_|?]; [|lia].
  - intros Hlen.
    set (out := replicate (32 - length bytes) x00 ++ bytes).
    assert (length out = 32%nat) as Hout.
    { unfold out. rewrite length_app, length_replicate. lia. }
    exists ("0x" +:+ toString_hex out), out.
    split; [by apply bytes32FromBytes_padded|].
    split; [apply bytes_of_hex_toString_hex|].
    split; [reflexivity|]. split; [exact Hout|].
    rewrite bytes32FromBytes_padded by lia.
    by rewrite Hout.
Qed.

Lemma bytes32FromBytes_fixed_width_witness :
  bytes32FromBytes (replicate 33 xff) = Throw (InputTooLong 33) /\
  exists hex out,
    bytes32FromBytes [x01; xff] = Ok hex /\
    bytes_of_hex hex = Some out /\
    out = replicate 30 x00 ++ [x01; xff] /\
    length out = 32%nat /\
    bytes32FromBytes out = Ok hex.
Proof.
  split.
  - apply (proj1 (bytes32FromBytes_fixed_width (replicate 33 xff))).
    vm_compute. lia.
  - apply (proj2 (bytes32FromBytes_fixed_width [x01; xff])).
    vm_compute. lia.
Defined.

End AddressCodecClaims.


Section BridgeDepositFlowClaims.
Import Run BridgeDepositFlow.

Lemma run_bind {Call Err A B} (m : M Call Err A) (k : A -> M Call Err B) log :
  (m ≫= k) log =
  match m log with
  | (log', inr a) => k a log'
  | (log', inl e) => (log', inl e)
  end.
Proof. reflexivity. Qed.

(** The guard comes before every network mutation: a run that has
    submitted a transaction has read a balance that covers the amount. *)
Lemma submission_requires_sufficient_balance (config : Config) (chain : Chain) :
  submitted (fst (run (main config chain))) <> [] ->
  exists address value usdc,
    parseUnits chain (DEPOSIT_AMOUNT config) 6 = Some value /\
    balanceOf chain (ETH_USDC_CONTRACT config) address = Some usdc /\
    (value <= usdc)%Z.
Proof.
  cbv [run main mbind M_bind bind require await or_reject throw ret].
  destruct (PRIVATE_KEY config) as [key|]; [|done].
  destruct (String.eqb key ""); [done|].
  destruct (privateKeyToAccount chain key) as [address|]; [|done].
  destruct (eth_getBalance chain address) as [eth|]; [|done].
  destruct (parseUnits chain (DEPOSIT_AMOUNT config) 6) as [value|] eqn:Hvalue;
    [|done].
  destruct (parseUnits chain (MAX_FEE config) 6) as [maxFee|]; [|done].
  destruct (balanceOf chain (ETH_USDC_CONTRACT config) address) as [usdc|]
    eqn:Hbalance; [|done].
  destruct (Z.ltb_spec usdc value) as [?|Hle]; [done|].
  intros _. by exists address, value, usdc.
Qed.

(** C4. When the token balance read at the start of the flow is below
    the requested deposit amount, the flow fails with
    [InsufficientBalance] and has submitted no transaction: the only
    calls made are the two reads, so neither the approval nor the
    deposit is ever sent. *)
Theorem insufficient_balance_submits_nothing
    (config : Config) (chain : Chain)
    (key address : string) (eth value maxFee usdc : Z) :
  PRIVATE_KEY config = Some key -> key <> "" ->
  privateKeyToAccount chain key = Some address ->
  eth_getBalance chain address = Some eth ->
  parseUnits chain (DEPOSIT_AMOUNT config) 6 = Some value ->
  parseUnits chain (MAX_FEE config) 6 = Some maxFee ->
  balanceOf chain (ETH_USDC_CONTRACT config) address = Some usdc ->
  (usdc < value)%Z ->
  exists log,
    run (main config chain) =
      (log, inl (InsufficientBalance (DEPOSIT_AMOUNT config))) /\
    log = [getBalance address;
           readContract_balanceOf (ETH_USDC_CONTRACT config) address] /\
    submitted log = [].
Proof.
  intros Hkey Hnonempty Haccount Heth Hvalue Hfee Hbalance Hlt.
  eexists. split; [|split; [reflexivity|reflexivity]].
  unfold run, main.
  rewrite Hkey, run_bind.
  destruct (String.eqb_spec key "") as [?|_]; [done|]. cbn [ret].
  rewrite Haccount, run_bind. cbn [require ret].
  rewrite run_bind. unfold await at 1. rewrite Heth. cbn [or_reject app].
  rewrite Hvalue, run_bind. cbn [require ret].
  rewrite Hfee, run_bind. cbn [require ret].
  rewrite run_bind. unfold await at 1. rewrite Hbalance. cbn [or_reject app].
  destruct (Z.ltb_spec usdc value) as [_|?]; [reflexivity|lia].
Qed.

Lemma insufficient_balance_submits_nothing_witness :
  exists log,
    run (main (config (Some "0xkey")) (test_chain 999999)) =
      (log, inl (InsufficientBalance "1.00")) /\
    log = [getBalance "0xf39Fd6e51aad88F6F4ce6aB8827279cffFb92266";
           readContract_balanceOf "0x1c7D4B196Cb0C7B01d743Fbc6116a902379C7238"
             "0xf39Fd6e51aad88F6F4ce6aB8827279cffFb92266"] /\
    submitted log = [].
Proof.
  apply (insufficient_balance_submits_nothing
           (config (Some "0xkey")) (test_chain 999999)
           "0xkey" "0xf39Fd6e51aad88F6F4ce6aB8827279cffFb92266"
           0 1000000 0 999999);
    first [reflexivity | discriminate].
Defined.

End BridgeDepositFlowClaims.

Section PaymentGatewayClaims.
Import PaymentGateway.

(** The handler on a request without a truthy proof: the header calls,
    if the response offers a setter, then the status and the body. *)
Lemma unpaid_request_is_answered config wallet req res :
  truthy (headers req !! "x-payment-txid") = false ->
  has_setHeader res || has_set res = true ->
  (let '(amount, recipient, network) := terms config wallet in
   payment_required amount recipient network
     (sent (requirePayment config wallet req res))).
Proof.
  intros Hfalsy Hsetter. unfold terms, requirePayment. rewrite Hfalsy.
  destruct (has_setHeader res), (has_set res); try discriminate;
    (repeat split; cbn; by simplify_map_eq).
Qed.

Lemma unpaid_request_not_forwarded config wallet req res :
  truthy (headers req !! "x-payment-txid") = false ->
  (call_next ∉ requirePayment config wallet req res) /\
  status (sent (requirePayment config wallet req res)) = Some 402%Z.
Proof.
  intros Hfalsy. unfold requirePayment. rewrite Hfalsy.
  destruct (has_setHeader res), (has_set res); split; try reflexivity;
    intros Hin; repeat (apply elem_of_cons in Hin as [?|Hin]; [discriminate|]);
    by apply elem_of_nil in Hin.
Qed.

(** C5. A request whose x-payment-txid header is non-empty is always
    forwarded: the handler calls [next] and nothing else, whatever the
    header holds. A request without the header is always answered with
    status 402, the three headers X-Payment-Amount, X-Payment-Recipient
    and X-Payment-Network, and a JSON body repeating the three fields;
    the response object is one of the interface, which has a header
    setter. *)
Theorem gateway_forwards_or_demands_payment
    (config : PaymentConfig) (wallet : option string)
    (req : GatewayRequest) (res : GatewayResponse) :
  (forall proof : header,
      headers req !! "x-payment-txid" = Some proof -> proof <> one "" ->
      requirePayment config wallet req res = [call_next] /\
      forwarded (sent (requirePayment config wallet req res)) = true /\
      status (sent (requirePayment config wallet req res)) = None) /\
  (headers req !! "x-payment-txid" = None ->
   has_setHeader res || has_set res = true ->
   (let '(amount, recipient, network) := terms config wallet in
    payment_required amount recipient network
      (sent (requirePayment config wallet req res)))).
Proof.
  split.
  - intros proof Hproof Hnonempty.
    assert (requirePayment config wallet req res = [call_next]) as ->;
      [|done].
    unfold requirePayment. rewrite Hproof.
    destruct proof as [s|values]; [|reflexivity].
    cbn [truthy]. destruct (String.eqb_spec s "") as [->|_]; [done|reflexivity].
  - intros Habsent. apply unpaid_request_is_answered. by rewrite Habsent.
Qed.

Lemma gateway_forwards_or_demands_payment_witness :
  let config := {| amount := "100000"; recipient := None; network := None |} in
  let wallet := Some "ST3Q6YCK0E2SDAA1KS7X546NY02F12D88RZHAH2P3" in
  let express := {| has_setHeader := true; has_set := true |} in
  requirePayment config wallet
    {| headers := {[ "x-payment-txid" := one "0xabc" ]} |} express
    = [call_next] /\
  payment_required "100000" "ST3Q6YCK0E2SDAA1KS7X546NY02F12D88RZHAH2P3"
    "stacks-testnet"
    (sent (requirePayment config wallet {| headers := ∅ |} express)).
Proof.
  intros config wallet express. split.
  - apply (proj1 (gateway_forwards_or_demands_payment config wallet
                    {| headers := {[ "x-payment-txid" := one "0xabc" ]} |}
                    express) (one "0xabc")).
    + reflexivity.
    + discriminate.
  - apply (proj2 (gateway_forwards_or_demands_payment config wallet
                    {| headers := ∅ |} express)); reflexivity.
Defined.

(** C9. A request whose x-payment-txid header is there but is the empty
    string is unpaid: the handler does not call [next], it answers 402
    with the payment terms, as it does when the header is absent. *)
Theorem empty_proof_is_unpaid
    (config : PaymentConfig) (wallet : option string)
    (req : GatewayRequest) (res : GatewayResponse) :
  headers req !! "x-payment-txid" = Some (one "") ->
  (call_next ∉ requirePayment config wallet req res) /\
  status (sent (requirePayment config wallet req res)) = Some 402%Z /\
  requirePayment config wallet req res =
    requirePayment config wallet
      {| headers := delete "x-payment-txid" (headers req) |} res /\
  (has_setHeader res || has_set res = true ->
   let '(amount, recipient, network) := terms config wallet in
   payment_required amount recipient network
     (sent (requirePayment config wallet req res))).
Proof.
  intros Hempty.
  assert (truthy (headers req !! "x-payment-txid") = false) as Hfalsy
    by (by rewrite Hempty).
  destruct (unpaid_request_not_forwarded config wallet req res Hfalsy)
    as [Hnext Hstatus].
  split; [exact Hnext|]. split; [exact Hstatus|]. split.
  - unfold requirePayment. cbn [headers].
    by rewrite Hempty, lookup_delete_eq.
  - by apply unpaid_request_is_answered.
Qed.

Lemma empty_proof_is_unpaid_witness :
  let config := {| amount := "100000"; recipient := Some "ST1DWX";
                   network := None |} in
  let req := {| headers := {[ "x-payment-txid" := one "" ]} |} in
  let res := {| has_setHeader := true; has_set := false |} in
  (call_next ∉ requirePayment config None req res) /\
  status (sent (requirePayment config None req res)) = Some 402%Z.
Proof.
  intros config req res.
  destruct (empty_proof_is_unpaid config None req res eq_refl)
    as (Hnext & Hstatus & _).
  exact (conj Hnext Hstatus).
Defined.

End PaymentGatewayClaims.

Section PaymentClientClaims.
Import Run PaymentClient.

Variable config : LumineClientConfig.
Variable world : World.
Variable url : string.
Variable options : option (gmap string value).

Let g : Call := gated_request url options.
Let t : Call := settlement_trigger config.

(** The runs of [get], one line per way through the function. *)
Lemma get_runs :
  run (get config world url options) =
  match world [g] with
  | None => ([g], inl (FetchFailed g))
  | Some first =>
      if negb (status first =? 402)%Z then ([g], inr first)
      else
        match world [g; t] with
        | None => ([g; t], inl (FetchFailed t))
        | Some paid =>
            if negb (ok paid) then ([g; t], inl (PaymentFailed (status paid)))
            else
              match json paid with
              | None => ([g; t], inl BodyNotJson)
              | Some _ =>
                  ([g; t; g], or_reject (world [g; t; g]) (FetchFailed g))
              end
        end
  end.
Proof.
  unfold run, get, do_fetch. rewrite run_bind. unfold await at 1.
  cbn [app]. fold g. destruct (world [g]) as [first|]; [|reflexivity].
  cbn [or_reject]. destruct (negb (status first =? 402)%Z); [reflexivity|].
  rewrite run_bind. unfold await at 1. cbn [app]. fold t.
  destruct (world [g; t]) as [paid|]; [|reflexivity].
  cbn [or_reject]. destruct (negb (ok paid)); [reflexivity|].
  rewrite run_bind.
  destruct (json paid) as [demoResult|]; [|reflexivity].
  cbn [require ret]. rewrite run_bind. unfold await at 1. cbn [app].
  destruct (world [g; t; g]); reflexivity.
Qed.

Lemma spread_GET_method : spread_GET options !! "method" = Some (str "GET").
Proof. apply lookup_insert_eq. Qed.

Lemma spread_GET_other key :
  key <> "method" -> spread_GET options !! key = default ∅ options !! key.
Proof. intros Hkey. unfold spread_GET. by rewrite lookup_insert_ne. Qed.

Lemma g_is_GET : is_request "GET" url g = true.
Proof.
  unfold g, gated_request, is_request.
  by rewrite spread_GET_method, String.eqb_refl.
Qed.

Lemma g_is_not_POST u : is_request "POST" u g = false.
Proof.
  unfold g, gated_request, is_request. rewrite spread_GET_method.
  apply andb_false_r.
Qed.

Lemma t_is_POST :
  is_request "POST" (apiBaseUrl config +:+ "/demo/run") t = true.
Proof.
  unfold t, settlement_trigger, is_request.
  by rewrite lookup_insert_eq, String.eqb_refl.
Qed.

Lemma t_is_not_GET u : is_request "GET" u t = false.
Proof.
  unfold t, settlement_trigger, is_request. rewrite lookup_insert_eq.
  apply andb_false_r.
Qed.

Lemma count_g : gated_requests url [g] = 1%nat.
Proof. unfold gated_requests. cbn [List.filter]. by rewrite g_is_GET. Qed.

Lemma count_gt : gated_requests url [g; t] = 1%nat.
Proof.
  unfold gated_requests. cbn [List.filter].
  by rewrite g_is_GET, t_is_not_GET.
Qed.

Lemma count_gtg : gated_requests url [g; t; g] = 2%nat.
Proof.
  unfold gated_requests. cbn [List.filter].
  by rewrite g_is_GET, t_is_not_GET.
Qed.

Lemma triggers_g : trigger_calls config [g] = 0%nat.
Proof. unfold trigger_calls. cbn [List.filter]. by rewrite g_is_not_POST. Qed.

Lemma triggers_gt : trigger_calls config [g; t] = 1%nat.
Proof.
  unfold trigger_calls. cbn [List.filter].
  by rewrite g_is_not_POST, t_is_POST.
Qed.

Lemma triggers_gtg : trigger_calls config [g; t; g] = 1%nat.
Proof.
  unfold trigger_calls. cbn [List.filter].
  by rewrite g_is_not_POST, t_is_POST.
Qed.

(** Whatever the servers answer, the calls of one [get] are the gated
    request, then possibly the trigger, then possibly the gated request
    once more. *)
Lemma get_log_shape :
  let log := fst (run (get config world url options)) in
  log = [g] \/ log = [g; t] \/ log = [g; t; g].
Proof.
  rewrite get_runs.
  destruct (world [g]) as [first|]; [|by left].
  destruct (negb (status first =? 402)%Z); [by left|].
  destruct (world [g; t]) as [paid|]; [|by right; left].
  destruct (negb (ok paid)); [by right; left|].
  destruct (json paid); [by right; right|by right; left].
Qed.

(** C6, as the code has it. For every behaviour of the servers, [get]
    issues at most two requests to the gated URL and at most one call to
    the settlement trigger. A first response that is not a 402 is
    returned unchanged and nothing else is requested. After a 402, a
    trigger that reports failure (not 2xx) makes the operation fail and
    the request is not retried; a trigger that reports success with a JSON
    body makes [get] reissue the request exactly once and return that
    second response, whatever its status. *)
Theorem get_is_a_two_step_protocol :
  let '(log, result) := run (get config world url options) in
  ((gated_requests url log <= 2)%nat /\ (trigger_calls config log <= 1)%nat) /\
  (forall first : Response,
      world [g] = Some first ->
      (status first <> 402%Z -> log = [g] /\ result = inr first) /\
      (status first = 402%Z ->
       forall paid : Response,
         world [g; t] = Some paid ->
         (ok paid = false ->
          log = [g; t] /\ result = inl (PaymentFailed (status paid)) /\
          gated_requests url log = 1%nat) /\
         (ok paid = true -> is_Some (json paid) ->
          log = [g; t; g] /\
          gated_requests url log = 2%nat /\
          trigger_calls config log = 1%nat /\
          forall second : Response,
            world [g; t; g] = Some second -> result = inr second))).
Proof.
  pose proof get_log_shape as Hshape. cbv zeta in Hshape.
  destruct (run (get config world url options)) as [log result] eqn:Hrun.
  cbn [fst] in Hshape. split.
  - destruct Hshape as [-> | [-> | ->]].
    + rewrite count_g, triggers_g. lia.
    + rewrite count_gt, triggers_gt. lia.
    + rewrite count_gtg, triggers_gtg. lia.
  - intros first Hfirst. rewrite get_runs, Hfirst in Hrun. split.
    + intros Hnot.
      destruct (Z.eqb_spec (status first) 402) as [?|_]; [done|].
      cbn [negb] in Hrun. by simplify_eq.
    + intros H402 paid Hpaid.
      rewrite H402, Hpaid in Hrun. cbn [Z.eqb Pos.eqb negb] in Hrun. split.
      * intros Hok. rewrite Hok in Hrun. cbn [negb] in Hrun.
        simplify_eq. by rewrite count_gt.
      * intros Hok [demoResult Hjson]. rewrite Hok, Hjson in Hrun.
        cbn [negb] in Hrun. simplify_eq.
        rewrite count_gtg, triggers_gtg. repeat split.
        intros second ->. reflexivity.
Qed.

(** C10. Both fetches of the gated URL are made with method GET,
    whatever method the caller's options name: the calls of a run are
    [fetch url init], possibly the trigger, possibly [fetch url init]
    again, where [init] has "GET" as its method and is the caller's
    options everywhere else. *)
Theorem get_forces_method_GET :
  exists init : gmap string value,
    init !! "method" = Some (str "GET") /\
    (forall key, key <> "method" -> init !! key = default ∅ options !! key) /\
    let log := fst (run (get config world url options)) in
    log = [fetch url init] \/
    log = [fetch url init; t] \/
    log = [fetch url init; t; fetch url init].
Proof.
  exists (spread_GET options).
  split; [apply spread_GET_method|].
  split; [apply spread_GET_other|].
  apply get_log_shape.
Qed.

End PaymentClientClaims.

Section PaymentClientScenarios.
Import Run PaymentClient.

Lemma get_is_a_two_step_protocol_witness :
  let world :=
    scripted [response 402 None; response 200 (Some (obj []));
              response 500 None] in
  snd (run (get example_config world example_url None))
    = inr (response 500 None) /\
  gated_requests example_url
    (fst (run (get example_config world example_url None))) = 2%nat /\
  trigger_calls example_config
    (fst (run (get example_config world example_url None))) = 1%nat.
Proof.
  intros world.
  pose proof (get_is_a_two_step_protocol example_config world example_url None)
    as H.
  destruct (run (get example_config world example_url None)) as [log result].
  destruct H as [_ H].
  destruct (H (response 402 None) eq_refl) as [_ H402].
  destruct (H402 eq_refl (response 200 (Some (obj []))) eq_refl) as [_ Hpaid].
  destruct (Hpaid eq_refl (ex_intro _ (obj []) eq_refl))
    as (_ & Hgated & Htrigger & Hsecond).
  exact (conj (Hsecond (response 500 None) eq_refl) (conj Hgated Htrigger)).
Defined.

(** C6 as stated fails: when the trigger answers 200 with a body that is
    not JSON, the settlement has succeeded by its status, yet [get] fails
    on reading the body and the gated request is never reissued. *)
Lemma success_without_json_is_not_retried :
  run (get example_config (scripted [response 402 None; response 200 None])
         example_url None)
    = ([gated_request example_url None; settlement_trigger example_config],
       inl BodyNotJson) /\
  ~ retried_after_every_success.
Proof.
  split; [rewrite get_runs; reflexivity|].
  intros Hclaim.
  specialize (Hclaim example_config
                (scripted [response 402 None; response 200 None])
                example_url None (response 402 None) (response 200 None)
                eq_refl eq_refl eq_refl eq_refl).
  vm_compute in Hclaim. discriminate Hclaim.
Qed.

End PaymentClientScenarios.

Section SignerServiceClaims.
Import Js Run SignerService.

Variable stacks : Stacks.

(** Fewer than three arguments: the usage line is printed and the process
    exits with code 1 before any call that handles a key. *)
Lemma usage_error_before_key args :
  (length args < 3)%nat ->
  main stacks args = {| stdout := [usage]; calls := []; ending := exit 1 |}.
Proof.
  intros Hlen. unfold main.
  by destruct (Nat.ltb_spec (length args) 3) as [_|?]; [|lia].
Qed.

(** How the [try] block can end without throwing: a failure line and
    [process.exit(1)], or a success line. *)
Lemma try_block_endings privateKey recipient amountStr amount log printed how :
  run (try_block stacks privateKey recipient amountStr amount)
    = (log, inr (printed, how)) ->
  (how = exit 1 /\ is_failure_line printed) \/
  (how = completed /\ printed !! 0%nat = Some ("success", jbool true)).
Proof.
  cbv [run try_block USDCX_CONTRACT mbind M_bind bind await lift ret].
  repeat match goal with
         | |- context [match ?x with inl _ => _ | inr _ => _ end] =>
             destruct x
         | |- context [if ?b then _ else _] => destruct b
         end;
    intros H; simplify_eq; [left|right]; by split.
Qed.

(** Past the parsing of the amount, every way out prints exactly one line,
    and a failure prints a failure line and exits with code 1: exceptions
    thrown inside the [try] block are caught. *)
Lemma failures_inside_try_are_reported args amount :
  (3 <= length args)%nat ->
  StringToBigInt (nth 2 args "") = Some amount ->
  exists l, stdout (main stacks args) = [l] /\
    ((ending (main stacks args) = exit 1 /\ is_failure_line l) \/
     (ending (main stacks args) = completed /\
      l !! 0%nat = Some ("success", jbool true))).
Proof.
  intros Hlen Hamount. unfold main.
  destruct (Nat.ltb_spec (length args) 3) as [?|_]; [lia|].
  rewrite Hamount.
  destruct (run (try_block _ _ _ _ _)) as [log [e|[printed how]]] eqn:Hrun.
  - eexists. split; [reflexivity|]. left. by split.
  - eexists. split; [reflexivity|]. cbn [ending].
    by apply try_block_endings in Hrun.
Qed.

(** A broadcast that the node rejects is reported with the node's error
    and its reason, and the process exits with code 1. *)
Lemma broadcast_rejection_is_reported
    args amount sender a s r transaction answer code :
  (3 <= length args)%nat ->
  let privateKey :=
    if (String.length (nth 0 args "") =? 64)%nat then nth 0 args "" +:+ "01"
    else nth 0 args "" in
  StringToBigInt (nth 2 args "") = Some amount ->
  getAddressFromPrivateKey stacks privateKey = inr sender ->
  uintCV stacks amount = inr a ->
  principalCV stacks sender = inr s ->
  principalCV stacks (nth 1 args "") = inr r ->
  makeContractCall stacks
    {| contractAddress := "ST1PQHQKV0RJXZFY1DGX8MNSNYVE3VGZJSRTPGZGM";
       contractName := "usdcx"; functionName := "transfer";
       functionArgs := [a; s; r; none]; senderKey := privateKey;
       fee := 10000 |} = inr transaction ->
  broadcastTransaction stacks transaction = inr answer ->
  error answer = Some code -> code <> "" ->
  stdout (main stacks args) =
    [[("success", jbool false); ("error", jstr code)]
       ++ field "reason" (reason answer)] /\
  ending (main stacks args) = exit 1.
Proof.
  intros Hlen privateKey Hamount Hsender Ha Hs Hr Hsign Hsend Hcode Hne.
  unfold main.
  destruct (Nat.ltb_spec (length args) 3) as [?|_]; [lia|].
  rewrite Hamount. fold privateKey.
  cbv [run try_block USDCX_CONTRACT mbind M_bind bind await lift ret].
  rewrite Hsender, Ha, Hs, Hr, Hsign, Hsend, Hcode. cbn [truthy].
  destruct (String.eqb_spec code "") as [?|_]; [done|].
  by split.
Qed.

(** C7. The usage check and the reporting of a rejected broadcast are as
    the claim says ([usage_error_before_key],
    [broadcast_rejection_is_reported]), and exceptions thrown inside the
    [try] block are reported ([failures_inside_try_are_reported]). But
    [BigInt(amountStr)] is evaluated before the [try]: with an amount that
    is not an integer literal, here "abc", the exception leaves [main],
    nothing is printed, and the run is not one that reports its failure. *)
Theorem amount_not_an_integer_escapes_main :
  let args := [test_key; "ST1PQHQKV0RJXZFY1DGX8MNSNYVE3VGZJSRTPGZGM"; "abc"] in
  main stacks args =
    {| stdout := []; calls := [];
       ending := unhandled_rejection (SyntaxError "abc") |} /\
  ~ reports_every_failure stacks args.
Proof.
  intros args.
  assert (main stacks args =
            {| stdout := []; calls := [];
               ending := unhandled_rejection (SyntaxError "abc") |}) as Hmain
    by reflexivity.
  split; [exact Hmain|].
  unfold reports_every_failure. rewrite Hmain. cbn [ending stdout].
  intros [?|[l [? _]]]; discriminate.
Qed.

(** The runs that report their failure are exactly those that do not stop
    at the parsing of the amount. *)
Lemma reports_every_failure_iff args :
  reports_every_failure stacks args <->
  (length args < 3)%nat \/ is_Some (StringToBigInt (nth 2 args "")).
Proof.
  unfold reports_every_failure. split.
  - intros Hreports.
    destruct (Nat.ltb_spec (length args) 3) as [?|Hlen]; [by left|right].
    destruct (StringToBigInt (nth 2 args "")) as [amount|] eqn:Hamount;
      [by eexists|].
    unfold main in Hreports.
    destruct (Nat.ltb_spec (length args) 3) as [?|_]; [lia|].
    rewrite Hamount in Hreports. cbn [ending stdout] in Hreports.
    destruct Hreports as [?|[l [? _]]]; discriminate.
  - intros [Hlen|[amount Hamount]].
    + rewrite (usage_error_before_key args Hlen). right.
      exists usage. by split.
    + destruct (Nat.ltb_spec (length args) 3) as [Hlt|Hge].
      * rewrite (usage_error_before_key args Hlt). right.
        exists usage. by split.
      * destruct (failures_inside_try_are_reported args amount Hge Hamount)
          as (l & Hl & [[_ Hfail]|[Hdone _]]).
        -- right. by exists l.
        -- by left.
Qed.

End SignerServiceClaims.

(** * Further properties of the code *)

Section AddressCodecMore.
Import Js AddressCodec.

(** ** Case *)







(** With a sharp s the prefix is cut off before it grows: these two
    addresses have the same upper-case form and are refused for different
    prefixes. *)
Lemma sharp_s_prefix_is_seen :
  let a := String sharp_s "T3Q6YCK0E2SDAA1KS7X546NY02F12D88RZHAH2P3" in
  let b := "SST3Q6YCK0E2SDAA1KS7X546NY02F12D88RZHAH2P3" in
  toUpperCase a = toUpperCase b /\
  encodeRecipient a = Throw (UnknownAddressPrefix "SST") /\
  encodeRecipient b = Throw (UnknownAddressPrefix "SS").
Proof. repeat split. Qed.

(** ** Sizes *)

Lemma mod8_of q x : (x < 8)%nat -> ((8 * q + x) mod 8 = x)%nat.
Proof.
  intros H. rewrite Nat.add_comm, Nat.mul_comm, Nat.Div0.mod_add.
  by apply Nat.mod_small.
Qed.

Lemma length_group_bits input all :
  group_bits input = Some all -> length all = (5 * String.length input)%nat.
Proof.
  revert all; induction input as [|c rest IH]; intros all; cbn [group_bits].
  - by intros [= <-].
  - unfold group_of_char.
    destruct (indexOf C32_ALPHABET (toUpperCase_char c)) as [k|]; cbn;
      [|discriminate].
    destruct (group_bits rest) as [r|]; cbn; [|discriminate].
    intros [= <-]. cbn [String.length length]. rewrite (IH r eq_refl). lia.
Qed.

Lemma leading_zeros_le b : (leading_zeros b <= length b)%nat.
Proof.
  induction b as [|[] b IH]; cbn [leading_zeros length]; lia.
Qed.

Lemma length_align_spec b :
  length (align_spec b) =
  if (length b mod 8 <=? leading_zeros b)%nat
  then (8 * (length b / 8))%nat
  else (8 * (length b / 8 + 1))%nat.
Proof.
  unfold align_spec, pad_spec, trim_spec.
  rewrite length_app, length_replicate, length_drop.
  pose proof (leading_zeros_le b) as Hlz.
  pose proof (Nat.div_mod_eq (length b) 8) as Hdiv.
  pose proof (Nat.mod_upper_bound (length b) 8 ltac:(lia)) as Hr.
  set (q := (length b / 8)%nat) in *. set (r := (length b mod 8)%nat) in *.
  destruct (Nat.leb_spec r (leading_zeros b)) as [Hle|Hgt].
  - rewrite Nat.min_l by lia.
    replace (length b - r)%nat with (8 * q + 0)%nat by lia.
    rewrite mod8_of by lia. cbn. lia.
  - rewrite Nat.min_r by lia.
    replace (length b - leading_zeros b)%nat
      with (8 * q + (r - leading_zeros b))%nat by lia.
    rewrite mod8_of by lia.
    rewrite (Nat.mod_small (8 - (r - leading_zeros b)) 8) by lia. lia.
Qed.

(** How many bytes [c32Decode] returns for a text of [n] valid characters:
    5n/8 rounded down when the leading zero bits reach back to a byte
    boundary, rounded up otherwise; so between 5n/8 rounded down and 5n/8
    rounded up. *)
Theorem c32Decode_length (input : string) (all : bits) (bytes : list byte) :
  group_bits input = Some all ->
  c32Decode input = Ok bytes ->
  let n := String.length input in
  length bytes =
    (if ((5 * n) mod 8 <=? leading_zeros all)%nat
     then (5 * n / 8)%nat else (5 * n / 8 + 1)%nat) /\
  (5 * n <= 8 * length bytes + 7)%nat /\
  (8 * length bytes <= 5 * n + 7)%nat.
Proof.
  intros Hall Hdec n.
  destruct (c32Decode_aligned input all Hall) as (bytes' & Hdec' & Hbits).
  rewrite Hdec in Hdec'. injection Hdec' as <-.
  pose proof (length_bits_of_bytes bytes) as Hlen.
  rewrite Hbits, length_align_spec, (length_group_bits input all Hall) in Hlen.
  fold n in Hlen.
  pose proof (Nat.div_mod_eq (5 * n) 8) as Hdiv.
  pose proof (Nat.mod_upper_bound (5 * n) 8 ltac:(lia)) as Hr.
  revert Hlen.
  destruct (Nat.leb_spec (5 * n mod 8) (leading_zeros all)); intros Hlen; lia.
Qed.

Lemma c32Decode_length_witness :
  length [x03; xff] = 2%nat /\ (5 * 2 <= 8 * 2 + 7)%nat /\ (8 * 2 <= 5 * 2 + 7)%nat.
Proof.
  exact (c32Decode_length "zz"
           [true; true; true; true; true; true; true; true; true; true]
           [x03; xff] eq_refl eq_refl).
Defined.

Lemma encodeRecipient_inv address recipient :
  encodeRecipient address = Ok recipient ->
  exists version decoded,
    (version = x1a /\ toUpperCase (slice_to 2 address) = "ST" \/
     version = x16 /\ toUpperCase (slice_to 2 address) = "SP") /\
    c32Decode (slice_from 2 address) = Ok decoded /\
    length decoded = 24%nat /\
    recipient = version :: take 20 decoded.
Proof.
  unfold encodeRecipient.
  set (prefix := toUpperCase (slice_to 2 address)).
  destruct (String.eqb_spec prefix "ST") as [Hst|_];
    [|destruct (String.eqb_spec prefix "SP") as [Hsp|_]];
    cbn [mbind result_bind]; [| |discriminate].
  all: destruct (c32Decode (slice_from 2 address)) as [decoded|e];
    cbn [mbind result_bind]; [|discriminate].
  all: destruct (Nat.eqb_spec (length decoded) 24) as [Hlen|_];
    cbn [negb]; [|discriminate].
  all: cbv zeta; rewrite recipient_array by (rewrite length_take; lia).
  all: intros [= <-]; eexists _, decoded.
  - split; [left; by split|done].
  - split; [right; by split|done].
Qed.

Lemma length_slice_to n s :
  String.length (slice_to n s) = min n (String.length s).
Proof.
  revert s; induction n as [|n IH]; intros [|c s]; try reflexivity.
  cbn [slice_to String.length]. rewrite IH. reflexivity.
Qed.












(** The lower bound is met: an address of 21 characters, eighteen of them
    the sharp s, is accepted. *)
Lemma sharp_s_address_is_accepted :
  let address := "STZ" +:+ string_of_list_ascii (replicate 18 sharp_s) in
  String.length address = 21%nat /\
  String.length (toUpperCase (slice_from 2 address)) = 37%nat /\
  exists recipient, encodeRecipient address = Ok recipient.
Proof. repeat split. eexists. vm_compute. reflexivity. Qed.

(** ** Values *)

Ltac fold_constant_bits :=
  match goal with
  | |- fold_left bit_step ?l ?acc = (_ * ?acc + ?v)%N =>
      let l' := eval vm_compute in l in
      let v' := eval vm_compute in v in
      change l with l'; change v with v';
      cbn [fold_left]; unfold bit_step; cbv beta iota; lia
  end.

Lemma fold_bits5 k acc :
  (k < 32)%nat ->
  fold_left bit_step (bits5 k) acc = (32 * acc + N.of_nat k)%N.
Proof.
  intros H.
  do 32 (destruct k as [|k]; [fold_constant_bits|]). lia.
Qed.








(** ** The whole pipeline *)

Lemma length_encodeRecipient address recipient :
  encodeRecipient address = Ok recipient -> length recipient = 21%nat.
Proof.
  intros Henc.
  destruct (encodeRecipient_inv address recipient Henc)
    as (version & decoded & _ & _ & Hlen & ->).
  cbn [length]. rewrite length_take. lia.
Qed.

(** [encodeStacksAddress] fails exactly as [encodeRecipient] does, with the
    same error: the width check of [bytes32FromBytes] and that of [pad] never
    fire. When it succeeds the result is "0x" and 64 hex digits, which read
    back as 11 zero bytes followed by the 21 bytes of the recipient. *)
Theorem encodeStacksAddress_pads_recipient (address : string) :
  match encodeRecipient address with
  | Throw e => encodeStacksAddress address = Throw e
  | Ok recipient =>
      exists hex,
        encodeStacksAddress address = Ok hex /\
        String.length hex = 66%nat /\
        bytes_of_hex hex = Some (replicate 11 x00 ++ recipient)
  end.
Proof.
  unfold encodeStacksAddress.
  destruct (encodeRecipient address) as [recipient|e] eqn:Henc;
    cbn [mbind result_bind]; [|reflexivity].
  pose proof (length_encodeRecipient address recipient Henc) as Hlen.
  rewrite bytes32FromBytes_padded by lia. rewrite Hlen.
  eexists. split; [reflexivity|]. split.
  - rewrite length_append, length_toString_hex, length_app, length_replicate.
    rewrite Hlen. reflexivity.
  - apply bytes_of_hex_toString_hex.
Qed.

(** Two addresses with the same bytes32 encoding have the same recipient
    bytes: the padding loses nothing. *)
Theorem encodeStacksAddress_injective_on_recipients (a b : string) (hex : string) :
  encodeStacksAddress a = Ok hex ->
  encodeStacksAddress b = Ok hex ->
  encodeRecipient a = encodeRecipient b.
Proof.
  unfold encodeStacksAddress. intros Ha Hb.
  destruct (encodeRecipient a) as [ra|ea] eqn:Hea;
    cbn [mbind result_bind] in Ha; [|discriminate].
  destruct (encodeRecipient b) as [rb|eb] eqn:Heb;
    cbn [mbind result_bind] in Hb; [|discriminate].
  pose proof (length_encodeRecipient a ra Hea) as Hla.
  pose proof (length_encodeRecipient b rb Heb) as Hlb.
  rewrite bytes32FromBytes_padded in Ha, Hb by lia.
  rewrite Hla in Ha. rewrite Hlb in Hb.
  assert (bytes_of_hex ("0x" +:+ toString_hex (replicate (32 - 21) x00 ++ rb)) =
          bytes_of_hex ("0x" +:+ toString_hex (replicate (32 - 21) x00 ++ ra)))
    as Hbytes by congruence.
  rewrite !bytes_of_hex_toString_hex in Hbytes.
  injection Hbytes as Hbytes. by subst.
Qed.

Lemma encodeStacksAddress_injective_on_recipients_witness :
  encodeRecipient "st3Q6YCK0E2SDAA1KS7X546NY02F12D88RZHAH2P3" =
  encodeRecipient scenario_address.
Proof.
  exact (encodeStacksAddress_injective_on_recipients
           "st3Q6YCK0E2SDAA1KS7X546NY02F12D88RZHAH2P3" scenario_address
           "0x00000000000000000000001aee6f326070b2d52833c9fa521abe009e113508c7"
           eq_refl eq_refl).
Defined.

End AddressCodecMore.

Section PaymentVerifierFacts.
Import PaymentVerifier.

(** [verify-transfer-params] accepts exactly the transfers whose recipient
    is the expected one, whose amount reaches the required amount and whose
    sender is not the recipient. The checks are made in that order, so a
    wrong recipient is reported (u1002) before a short amount (u1004), and
    a short amount before a self-payment (u1003); the code u1001 is never
    returned, and an amount of zero passes when zero is required. *)
Theorem verify_transfer_params_decides
    (sender recipient expected : string) (amount required : N) :
  let r := verify_transfer_params sender recipient amount required expected in
  (r = ok_true <->
   recipient = expected /\ (required <= amount)%N /\ sender <> recipient) /\
  (r = err 1002 <-> recipient <> expected) /\
  (r = err 1004 <-> recipient = expected /\ (amount < required)%N) /\
  (r = err 1003 <->
   recipient = expected /\ (required <= amount)%N /\ sender = recipient) /\
  r <> ERR_INVALID_AMOUNT /\
  (r = ok_true <->
   is_recipient_valid recipient expected = true /\
   is_amount_sufficient amount required = true /\
   sender <> recipient).
Proof.
  unfold verify_transfer_params, asserts, is_recipient_valid,
    is_amount_sufficient, ERR_INVALID_AMOUNT, ERR_INVALID_RECIPIENT,
    ERR_AMOUNT_INSUFFICIENT, ERR_INVALID_SENDER.
  destruct (String.eqb_spec recipient expected) as [Hr|Hr];
    destruct (N.leb_spec required amount) as [Ha|Ha];
    destruct (String.eqb_spec sender recipient) as [Hs|Hs];
    cbn [negb]; repeat split;
    try discriminate; try tauto; try lia;
    intros; try discriminate; try tauto; try lia;
    repeat match goal with H : _ /\ _ |- _ => destruct H end;
    try discriminate; try tauto; try lia.
Qed.

Lemma ten_pow_39 : (uint_bound <= 10 ^ 39)%N.
Proof. vm_compute. discriminate. Qed.

Lemma ten_pow_38 : (10 ^ 38 < uint_bound)%N.
Proof. reflexivity. Qed.

(** [to-base-units]. Up to 6 display decimals the amount is multiplied by
    10^(6-d), and the call aborts exactly when the product does not fit in
    a uint. Beyond 6 decimals the amount is divided by 10^(d-6), rounding
    down; that never aborts up to 44 decimals and always aborts from 45
    on, where the power of ten itself overflows. *)
Theorem to_base_units_cases (amount decimals : N) :
  ((decimals <= 6)%N ->
   to_base_units amount decimals =
     if (amount * 10 ^ (6 - decimals) <? uint_bound)%N
     then Some (amount * 10 ^ (6 - decimals))%N else None) /\
  ((6 < decimals <= 44)%N ->
   exists units,
     to_base_units amount decimals = Some units /\
     (units * 10 ^ (decimals - 6) <= amount
      < (units + 1) * 10 ^ (decimals - 6))%N) /\
  ((44 < decimals)%N -> to_base_units amount decimals = None).
Proof.
  unfold to_base_units, uint_sub, uint_pow, uint_mul, uint_div, in_range.
  repeat split.
  - intros Hd.
    destruct (N.leb_spec decimals 6) as [_|?]; [|lia].
    cbn [mbind option_bind].
    assert (10 ^ (6 - decimals) <= 10 ^ 6)%N as Hp
      by (apply N.pow_le_mono_r; lia).
    assert (10 ^ 6 < uint_bound)%N as H6 by reflexivity.
    destruct (N.ltb_spec (10 ^ (6 - decimals)) uint_bound) as [_|?]; [|lia].
    reflexivity.
  - intros [Hlow Hhigh].
    destruct (N.leb_spec decimals 6) as [?|_]; [lia|].
    destruct (N.leb_spec 6 decimals) as [_|?]; [|lia].
    cbn [mbind option_bind].
    assert (10 ^ (decimals - 6) <= 10 ^ 38)%N as Hp
      by (apply N.pow_le_mono_r; lia).
    pose proof ten_pow_38 as H38.
    destruct (N.ltb_spec (10 ^ (decimals - 6)) uint_bound) as [_|?]; [|lia].
    cbn [mbind option_bind].
    assert (0 < 10 ^ (decimals - 6))%N as Hpos
      by (apply N.neq_0_lt_0, N.pow_nonzero; lia).
    destruct (N.eqb_spec (10 ^ (decimals - 6)) 0) as [?|_]; [lia|].
    eexists. split; [reflexivity|].
    pose proof (N.Div0.mul_div_le amount (10 ^ (decimals - 6))).
    pose proof (N.mul_succ_div_gt amount (10 ^ (decimals - 6)) ltac:(lia)).
    lia.
  - intros Hd.
    destruct (N.leb_spec decimals 6) as [?|_]; [lia|].
    destruct (N.leb_spec 6 decimals) as [_|?]; [|lia].
    cbn [mbind option_bind].
    assert (10 ^ 39 <= 10 ^ (decimals - 6))%N as Hp
      by (apply N.pow_le_mono_r; lia).
    pose proof ten_pow_39 as H39.
    destruct (N.ltb_spec (10 ^ (decimals - 6)) uint_bound) as [?|_]; [lia|].
    reflexivity.
Qed.

Lemma to_base_units_cases_witness :
  to_base_units 1 1 = Some get_standard_payment_amount /\
  (exists units, to_base_units 123456789 8 = Some units /\
     (units * 10 ^ 2 <= 123456789 < (units + 1) * 10 ^ 2)%N) /\
  to_base_units 1 45 = None.
Proof.
  split; [|split].
  - apply (proj1 (to_base_units_cases 1 1)). vm_compute. discriminate.
  - apply (proj1 (proj2 (to_base_units_cases 123456789 8))). lia.
  - apply (proj2 (proj2 (to_base_units_cases 1 45))). lia.
Defined.

End PaymentVerifierFacts.

Section BridgeDepositFlowMore.
Import Run BridgeDepositFlow.

Ltac deposit_paths :=
  cbv [run main mbind M_bind bind require await or_reject throw ret];
  repeat match goal with
         | |- context [match ?x with Some _ => _ | None => _ end] =>
             destruct x eqn:?
         | |- context [match ?x with
                       | AddressCodec.Ok _ => _
                       | AddressCodec.Throw _ => _
                       end] => destruct x eqn:?
         | |- context [if ?b then _ else _] => destruct b eqn:?
         end;
  cbn [fst snd app submitted omap list_omap].

(** Without a private key (the variable unset, or set to the empty
    string) the script stops before it asks the network anything. *)
Theorem no_private_key_no_network (config : Config) (chain : Chain) :
  PRIVATE_KEY config = None \/ PRIVATE_KEY config = Some "" ->
  run (main config chain) = ([], inl PrivateKeyMissing).
Proof.
  intros [Hkey|Hkey]; unfold run, main; rewrite Hkey, run_bind; reflexivity.
Qed.

Lemma no_private_key_no_network_witness :
  run (main (config (Some "")) (test_chain 5000000)) =
    ([], inl PrivateKeyMissing).
Proof.
  apply (no_private_key_no_network (config (Some "")) (test_chain 5000000)).
  right. reflexivity.
Defined.

(** A recipient address that the codec refuses costs nothing: whatever the
    chain answers, the run fails and no transaction has been submitted,
    since the address is encoded before the approval is sent. *)
Theorem bad_recipient_submits_nothing
    (config : Config) (chain : Chain) (e : AddressCodec.error) :
  AddressCodec.encodeStacksAddress (STACKS_RECIPIENT config)
    = AddressCodec.Throw e ->
  submitted (fst (run (main config chain))) = [] /\
  exists failure, snd (run (main config chain)) = inl failure.
Proof.
  intros Hbad. revert Hbad. deposit_paths; intros Hbad;
    try discriminate; (split; [reflexivity|by eexists]).
Qed.

Lemma bad_recipient_submits_nothing_witness :
  let bad := {|
    PRIVATE_KEY := Some "0xkey";
    X_RESERVE_CONTRACT := "0x008888878f94C0d87defdf0B07f46B93C1934442";
    ETH_USDC_CONTRACT := "0x1c7D4B196Cb0C7B01d743Fbc6116a902379C7238";
    STACKS_DOMAIN := 10003;
    STACKS_RECIPIENT := "ST000000000000000000002AMW42H";
    DEPOSIT_AMOUNT := "1.00";
    MAX_FEE := "0" |} in
  submitted (fst (run (main bad (test_chain 5000000)))) = [] /\
  exists failure, snd (run (main bad (test_chain 5000000))) = inl failure.
Proof.
  intros bad.
  apply (bad_recipient_submits_nothing bad (test_chain 5000000)
           (AddressCodec.MalformedBody 16)).
  vm_compute. reflexivity.
Defined.

(** The two phases are ordered, on every chain: a run sends nothing, or
    the approval alone, or the approval and then the deposit; and the
    deposit is sent only when the approval was accepted and its receipt
    came back. The approval names the bridge as spender and the parsed
    amount; the deposit carries the amount, the domain, the encoded
    recipient, the token, the fee ceiling and empty hook data. *)
Theorem deposit_only_after_confirmed_approval
    (config : Config) (chain : Chain) :
  let log := fst (run (main config chain)) in
  submitted log = [] \/
  exists value,
    parseUnits chain (DEPOSIT_AMOUNT config) 6 = Some value /\
    let approval :=
      approve (ETH_USDC_CONTRACT config) (X_RESERVE_CONTRACT config) value in
    (submitted log = [approval] \/
     exists approveTxHash maxFee remoteRecipient,
       submit chain approval = Some approveTxHash /\
       receipt chain approveTxHash = Some tt /\
       parseUnits chain (MAX_FEE config) 6 = Some maxFee /\
       AddressCodec.encodeStacksAddress (STACKS_RECIPIENT config)
         = AddressCodec.Ok remoteRecipient /\
       submitted log =
         [approval;
          depositToRemote (X_RESERVE_CONTRACT config) value
            (STACKS_DOMAIN config) remoteRecipient (ETH_USDC_CONTRACT config)
            maxFee "0x"]).
Proof.
  deposit_paths; try (by left); right; cbv zeta;
    repeat match goal with u : unit |- _ => destruct u end.
  all: eexists; (split; [reflexivity|]).
  all: try (by left).
  all: right; eexists _, _, _; repeat split; first [eassumption | reflexivity].
Qed.

(** The run that succeeds: six calls in order (two reads, the approval and
    its receipt, the deposit and its receipt), after which [main] returns
    without a value. *)
Theorem successful_deposit_run
    (config : Config) (chain : Chain)
    (key address remoteRecipient approveTxHash depositTxHash : string)
    (eth value maxFee usdc : Z) :
  PRIVATE_KEY config = Some key -> key <> "" ->
  privateKeyToAccount chain key = Some address ->
  eth_getBalance chain address = Some eth ->
  parseUnits chain (DEPOSIT_AMOUNT config) 6 = Some value ->
  parseUnits chain (MAX_FEE config) 6 = Some maxFee ->
  balanceOf chain (ETH_USDC_CONTRACT config) address = Some usdc ->
  (value <= usdc)%Z ->
  AddressCodec.encodeStacksAddress (STACKS_RECIPIENT config)
    = AddressCodec.Ok remoteRecipient ->
  let approval :=
    approve (ETH_USDC_CONTRACT config) (X_RESERVE_CONTRACT config) value in
  let deposit :=
    depositToRemote (X_RESERVE_CONTRACT config) value (STACKS_DOMAIN config)
      remoteRecipient (ETH_USDC_CONTRACT config) maxFee "0x" in
  submit chain approval = Some approveTxHash ->
  receipt chain approveTxHash = Some tt ->
  submit chain deposit = Some depositTxHash ->
  receipt chain depositTxHash = Some tt ->
  run (main config chain) =
    ([getBalance address;
      readContract_balanceOf (ETH_USDC_CONTRACT config) address;
      writeContract approval;
      waitForTransactionReceipt approveTxHash;
      writeContract deposit;
      waitForTransactionReceipt depositTxHash],
     inr tt).
Proof.
  intros Hkey Hne Haccount Heth Hvalue Hfee Hbalance Hle Hrecipient
    approval deposit Happrove Hreceipt1 Hdeposit Hreceipt2.
  cbv [run main mbind M_bind bind require await or_reject throw ret].
  rewrite Hkey. destruct (String.eqb_spec key "") as [?|_]; [done|].
  rewrite Haccount, Heth, Hvalue, Hfee, Hbalance.
  destruct (Z.ltb_spec usdc value) as [?|_]; [lia|].
  rewrite Hrecipient. fold approval. rewrite Happrove, Hreceipt1.
  fold deposit. rewrite Hdeposit, Hreceipt2. reflexivity.
Qed.

Lemma successful_deposit_run_witness :
  run (main (config (Some "0xkey")) (test_chain 1000000)) =
    ([getBalance "0xf39Fd6e51aad88F6F4ce6aB8827279cffFb92266";
      readContract_balanceOf "0x1c7D4B196Cb0C7B01d743Fbc6116a902379C7238"
        "0xf39Fd6e51aad88F6F4ce6aB8827279cffFb92266";
      writeContract
        (approve "0x1c7D4B196Cb0C7B01d743Fbc6116a902379C7238"
           "0x008888878f94C0d87defdf0B07f46B93C1934442" 1000000);
      waitForTransactionReceipt "0xa1";
      writeContract
        (depositToRemote "0x008888878f94C0d87defdf0B07f46B93C1934442"
           1000000 10003
           "0x00000000000000000000001aee6f326070b2d52833c9fa521abe009e113508c7"
           "0x1c7D4B196Cb0C7B01d743Fbc6116a902379C7238" 0 "0x");
      waitForTransactionReceipt "0xd2"],
     inr tt).
Proof.
  apply (successful_deposit_run (config (Some "0xkey")) (test_chain 1000000)
           "0xkey" "0xf39Fd6e51aad88F6F4ce6aB8827279cffFb92266"
           "0x00000000000000000000001aee6f326070b2d52833c9fa521abe009e113508c7"
           "0xa1" "0xd2" 0 1000000 0 1000000);
    first [reflexivity | discriminate | lia].
Defined.

End BridgeDepositFlowMore.

Section SignerServiceMore.
Import Js Run SignerService.

Variable stacks : Stacks.

(** Argument handling: with fewer than three arguments the usage line is
    printed, the process exits with code 1 and no call has handled a key;
    arguments after the third are ignored. *)
Theorem signer_argument_handling (args : list string) :
  ((length args < 3)%nat ->
   stdout (main stacks args) = [usage] /\
   calls (main stacks args) = [] /\
   ending (main stacks args) = exit 1) /\
  (forall privateKey recipient amountStr rest,
      args = privateKey :: recipient :: amountStr :: rest ->
      main stacks args = main stacks [privateKey; recipient; amountStr]).
Proof.
  split.
  - intros Hlen. by rewrite (usage_error_before_key stacks args Hlen).
  - intros privateKey recipient amountStr rest ->. reflexivity.
Qed.

(** Past the parsing of the amount a run prints exactly one line: a
    failure line when it ends with exit code 1, a success line when it runs
    to its end; it ends in no other way. *)
Theorem one_line_past_parsing (args : list string) (amount : Z) :
  (3 <= length args)%nat ->
  StringToBigInt (nth 2 args "") = Some amount ->
  exists l, stdout (main stacks args) = [l] /\
    ((ending (main stacks args) = exit 1 /\ is_failure_line l) \/
     (ending (main stacks args) = completed /\
      l !! 0%nat = Some ("success", jbool true))).
Proof. apply failures_inside_try_are_reported. Qed.

(** One settlement attempt, with fixed terms. The calls of a run are a
    prefix of: derive the address from the key, sign, broadcast; so there
    is at most one broadcast and no retry. The key handed to the library
    is the first argument, with "01" appended when it has 64 characters.
    What is signed is a call of [transfer] on the usdcx contract with the
    amount that [BigInt] read from the third argument, as [uintCV] wraps
    it, the derived sender, the recipient and no memo, for a fee of
    10000. *)
Theorem single_settlement_attempt (args : list string) :
  let raw := nth 0 args "" in
  let key := if (String.length raw =? 64)%nat then raw +:+ "01" else raw in
  calls (main stacks args) = [] \/
  calls (main stacks args) = [derive_address key] \/
  exists amount sender a s r,
    StringToBigInt (nth 2 args "") = Some amount /\
    getAddressFromPrivateKey stacks key = inr sender /\
    uintCV stacks amount = inr a /\
    principalCV stacks sender = inr s /\
    principalCV stacks (nth 1 args "") = inr r /\
    let options :=
      {| contractAddress := "ST1PQHQKV0RJXZFY1DGX8MNSNYVE3VGZJSRTPGZGM";
         contractName := "usdcx";
         functionName := "transfer";
         functionArgs := [a; s; r; none];
         senderKey := key;
         fee := 10000 |} in
    (calls (main stacks args) = [derive_address key; sign options] \/
     exists transaction,
       makeContractCall stacks options = inr transaction /\
       calls (main stacks args) =
         [derive_address key; sign options; broadcast transaction]).
Proof.
  intros raw key. unfold main. fold raw.
  destruct (length args <? 3)%nat; [by left|].
  destruct (StringToBigInt (nth 2 args "")) as [amount|] eqn:Hamount;
    [|by left].
  fold key.
  cbv [run try_block USDCX_CONTRACT mbind M_bind bind await lift ret].
  destruct (getAddressFromPrivateKey stacks key) as [e|sender] eqn:Hsender;
    [by right; left|].
  destruct (uintCV stacks amount) as [e|a] eqn:Ha; [by right; left|].
  destruct (principalCV stacks sender) as [e|s] eqn:Hs; [by right; left|].
  destruct (principalCV stacks (nth 1 args "")) as [e|r] eqn:Hr;
    [by right; left|].
  right; right. exists amount, sender, a, s, r.
  repeat (split; [done|]). cbv zeta.
  destruct (makeContractCall stacks _) as [e|transaction] eqn:Hsign;
    [by left|].
  right. exists transaction. split; [reflexivity|].
  destruct (broadcastTransaction stacks transaction) as [e|answer];
    [reflexivity|].
  by destruct (truthy (error answer)).
Qed.

(** A broadcast that the node accepts (no [error] in its answer) prints
    the success line, with the transaction id of the answer, the derived
    sender, the recipient and the amount exactly as it was given, and the
    process runs to its end. *)
Theorem accepted_broadcast_prints_success
    (args : list string) (amount : Z) (sender transaction : string)
    (a s r : ClarityValue) (answer : BroadcastResponse) :
  (3 <= length args)%nat ->
  let raw := nth 0 args "" in
  let key := if (String.length raw =? 64)%nat then raw +:+ "01" else raw in
  StringToBigInt (nth 2 args "") = Some amount ->
  getAddressFromPrivateKey stacks key = inr sender ->
  uintCV stacks amount = inr a ->
  principalCV stacks sender = inr s ->
  principalCV stacks (nth 1 args "") = inr r ->
  makeContractCall stacks
    {| contractAddress := "ST1PQHQKV0RJXZFY1DGX8MNSNYVE3VGZJSRTPGZGM";
       contractName := "usdcx"; functionName := "transfer";
       functionArgs := [a; s; r; none]; senderKey := key;
       fee := 10000 |} = inr transaction ->
  broadcastTransaction stacks transaction = inr answer ->
  truthy (error answer) = false ->
  stdout (main stacks args) =
    [[("success", jbool true)] ++ field "txid" (txid answer) ++
     [("sender", jstr sender); ("recipient", jstr (nth 1 args ""));
      ("amount", jstr (nth 2 args ""))]] /\
  ending (main stacks args) = completed.
Proof.
  intros Hlen raw key Hamount Hsender Ha Hs Hr Hsign Hsend Herror.
  unfold main.
  destruct (Nat.ltb_spec (length args) 3) as [?|_]; [lia|].
  rewrite Hamount. fold raw. fold key.
  cbv [run try_block USDCX_CONTRACT mbind M_bind bind await lift ret].
  rewrite Hsender, Ha, Hs, Hr, Hsign, Hsend, Herror. by split.
Qed.

End SignerServiceMore.

Section SignerServiceScenarios.
Import Js Run SignerService.

Let accepted : BroadcastResponse :=
  {| error := None; reason := None; txid := Some "0xabc" |}.
Let rejected : BroadcastResponse :=
  {| error := Some "transaction rejected"; reason := Some "NotEnoughFunds";
     txid := None |}.
Let args : list string :=
  [test_key; "ST1PQHQKV0RJXZFY1DGX8MNSNYVE3VGZJSRTPGZGM"; "100000"].

Lemma signer_argument_handling_witness :
  stdout (main (test_stacks accepted)
            [test_key; "ST1PQHQKV0RJXZFY1DGX8MNSNYVE3VGZJSRTPGZGM"])
    = [usage] /\
  main (test_stacks accepted)
    [test_key; "ST1PQHQKV0RJXZFY1DGX8MNSNYVE3VGZJSRTPGZGM"; "1"; "x"]
  = main (test_stacks accepted)
      [test_key; "ST1PQHQKV0RJXZFY1DGX8MNSNYVE3VGZJSRTPGZGM"; "1"].
Proof.
  split.
  - apply (proj1 (signer_argument_handling (test_stacks accepted)
                    [test_key; "ST1PQHQKV0RJXZFY1DGX8MNSNYVE3VGZJSRTPGZGM"])).
    cbn. lia.
  - exact (proj2 (signer_argument_handling (test_stacks accepted)
                    [test_key; "ST1PQHQKV0RJXZFY1DGX8MNSNYVE3VGZJSRTPGZGM";
                     "1"; "x"]) _ _ _ _ eq_refl).
Defined.

Lemma one_line_past_parsing_witness :
  exists l, stdout (main (test_stacks rejected) args) = [l] /\
    ((ending (main (test_stacks rejected) args) = exit 1 /\ is_failure_line l) \/
     (ending (main (test_stacks rejected) args) = completed /\
      l !! 0%nat = Some ("success", jbool true))).
Proof.
  apply (one_line_past_parsing (test_stacks rejected) args 100000).
  - cbn. lia.
  - reflexivity.
Defined.

Lemma broadcast_rejection_is_reported_witness :
  stdout (main (test_stacks rejected) args) =
    [[("success", jbool false); ("error", jstr "transaction rejected");
      ("reason", jstr "NotEnoughFunds")]] /\
  ending (main (test_stacks rejected) args) = exit 1.
Proof.
  apply (broadcast_rejection_is_reported (test_stacks rejected) args 100000
           "ST3Q6YCK0E2SDAA1KS7X546NY02F12D88RZHAH2P3"
           (uint 100000)
           (principal "ST3Q6YCK0E2SDAA1KS7X546NY02F12D88RZHAH2P3")
           (principal "ST1PQHQKV0RJXZFY1DGX8MNSNYVE3VGZJSRTPGZGM")
           "0x8080" rejected "transaction rejected");
    first [reflexivity | discriminate | (cbn; lia)].
Defined.

Lemma accepted_broadcast_prints_success_witness :
  stdout (main (test_stacks accepted) args) =
    [[("success", jbool true); ("txid", jstr "0xabc");
      ("sender", jstr "ST3Q6YCK0E2SDAA1KS7X546NY02F12D88RZHAH2P3");
      ("recipient", jstr "ST1PQHQKV0RJXZFY1DGX8MNSNYVE3VGZJSRTPGZGM");
      ("amount", jstr "100000")]] /\
  ending (main (test_stacks accepted) args) = completed.
Proof.
  apply (accepted_broadcast_prints_success (test_stacks accepted) args 100000
           "ST3Q6YCK0E2SDAA1KS7X546NY02F12D88RZHAH2P3" "0x8080"
           (uint 100000)
           (principal "ST3Q6YCK0E2SDAA1KS7X546NY02F12D88RZHAH2P3")
           (principal "ST1PQHQKV0RJXZFY1DGX8MNSNYVE3VGZJSRTPGZGM")
           accepted);
    first [reflexivity | (cbn; lia)].
Defined.

End SignerServiceScenarios.

Section SignerAmounts.
Import Js Run SignerService.

Lemma digit_is_not_white_space c :
  is_decimal_digit c = true -> is_white_space c = false.
Proof.
  destruct c as [[] [] [] [] [] [] [] []]; vm_compute; congruence.
Qed.

Lemma digit_has_value c :
  is_decimal_digit c = true ->
  exists v, digit_value 10 c = Some v /\ (0 <= v)%Z.
Proof.
  destruct c as [[] [] [] [] [] [] [] []]; intros H; try discriminate H;
    eexists; (split; [reflexivity|lia]).
Qed.

Lemma trim_start_digits l :
  Forall (fun c => is_decimal_digit c = true) l -> trim_start l = l.
Proof.
  intros [|c l' Hc _]; [reflexivity|].
  cbn [trim_start]. by rewrite (digit_is_not_white_space c Hc).
Qed.

Lemma trim_digits l :
  Forall (fun c => is_decimal_digit c = true) l -> trim l = l.
Proof.
  intros Hl. unfold trim. rewrite (trim_start_digits l Hl).
  rewrite trim_start_digits by (by apply Forall_rev).
  apply rev_involutive.
Qed.

Lemma digits_from_digits l :
  Forall (fun c => is_decimal_digit c = true) l ->
  forall acc, (0 <= acc)%Z ->
  exists n, digits_from 10 acc l = Some n /\ (0 <= n)%Z.
Proof.
  induction 1 as [|c l Hc _ IH]; intros acc Hacc; [by exists acc|].
  destruct (digit_has_value c Hc) as (v & Hv & Hpos).
  cbn [digits_from]. rewrite Hv. cbn [mbind option_bind].
  apply IH. lia.
Qed.

Lemma StringToBigInt_digits s :
  s <> "" ->
  Forall (fun c => is_decimal_digit c = true) (chars s) ->
  StringToBigInt s = digits_from 10 0 (chars s).
Proof.
  intros Hne Hl. unfold StringToBigInt. rewrite (trim_digits _ Hl).
  destruct (chars s) as [|c1 l] eqn:Hchars.
  { destruct s; [done|discriminate Hchars]. }
  inversion Hl as [|? ? Hc1 Hl']; subst.
  destruct c1 as [[] [] [] [] [] [] [] []]; try discriminate Hc1;
    try reflexivity.
  destruct l as [|c2 r]; [reflexivity|].
  inversion Hl' as [|? ? Hc2 _]; subst.
  destruct c2 as [[] [] [] [] [] [] [] []]; try discriminate Hc2; reflexivity.
Qed.

(** An amount written in decimal digits always gets past [BigInt]: it
    parses to a number that is not negative, and the run then reports
    whatever goes wrong on standard output. *)
Theorem decimal_amount_is_reported (stacks : Stacks) (args : list string) :
  (3 <= length args)%nat ->
  nth 2 args "" <> "" ->
  Forall (fun c => is_decimal_digit c = true) (chars (nth 2 args "")) ->
  (exists amount,
      StringToBigInt (nth 2 args "") = Some amount /\ (0 <= amount)%Z) /\
  reports_every_failure stacks args.
Proof.
  intros Hlen Hne Hdigits.
  destruct (digits_from_digits _ Hdigits 0%Z ltac:(lia)) as (n & Hn & Hpos).
  rewrite <- (StringToBigInt_digits _ Hne Hdigits) in Hn.
  split; [by exists n|].
  destruct (failures_inside_try_are_reported stacks args n Hlen Hn)
    as (l & Hl & [[_ Hfail]|[Hdone _]]).
  - right. by exists l.
  - by left.
Qed.

Lemma decimal_amount_is_reported_witness :
  let stacks := test_stacks {| error := None; reason := None; txid := None |} in
  let args := [test_key; "ST1PQHQKV0RJXZFY1DGX8MNSNYVE3VGZJSRTPGZGM"; "100000"] in
  (exists amount, StringToBigInt "100000" = Some amount /\ (0 <= amount)%Z) /\
  reports_every_failure stacks args.
Proof.
  intros stacks args.
  apply (decimal_amount_is_reported stacks args).
  - cbn. lia.
  - discriminate.
  - repeat constructor.
Defined.

(** White space around the amount is trimmed, the no-break space
    included. *)
Lemma no_break_space_amount_is_read :
  StringToBigInt (String "160" "5") = Some 5%Z /\
  StringToBigInt " 5 " = Some 5%Z.
Proof. split; reflexivity. Qed.

End SignerAmounts.

Section PaymentGatewayMore.
Import PaymentGateway.

(** The handler does one of two things and never both. When the proof
    header is truthy it calls [next] and writes nothing. Otherwise it does
    not call [next], and it sends status 402 with the JSON body of the
    payment terms, whether or not the response offers a header setter. *)
Theorem handler_forwards_or_answers
    (config : PaymentConfig) (wallet : option string)
    (req : GatewayRequest) (res : GatewayResponse) :
  let effects := requirePayment config wallet req res in
  if truthy (headers req !! "x-payment-txid")
  then effects = [call_next]
  else
    (call_next ∉ effects) /\
    forwarded (sent effects) = false /\
    status (sent effects) = Some 402%Z /\
    let '(amount, recipient, network) := terms config wallet in
    body (sent effects) = Some (jobj [
      ("error", jstr "Payment Required");
      ("message", jstr "This endpoint requires payment to access");
      ("payment", jobj [
         ("amount", jstr amount);
         ("recipient", jstr recipient);
         ("network", jstr network);
         ("currency", jstr "USDCx")])]).
Proof.
  intros effects. subst effects. unfold requirePayment, terms.
  destruct (truthy (headers req !! "x-payment-txid")); [reflexivity|].
  destruct (has_setHeader res), (has_set res);
    (split; [|by repeat split]);
    intros Hin; repeat (apply elem_of_cons in Hin as [?|Hin]; [discriminate|]);
    by apply elem_of_nil in Hin.
Qed.

(** Which setter carries the headers of the 402 answer: [setHeader] when
    the response has it, even if it has [set] as well; [set] when that is
    all there is; and with neither the answer goes out with its status and
    body and without any header. *)
Theorem header_setter_choice
    (config : PaymentConfig) (wallet : option string)
    (req : GatewayRequest) (res : GatewayResponse) :
  truthy (headers req !! "x-payment-txid") = false ->
  let '(amount, recipient, network) := terms config wallet in
  let effects := requirePayment config wallet req res in
  (has_setHeader res = true ->
   take 3 effects =
     [res_setHeader "X-Payment-Amount" amount;
      res_setHeader "X-Payment-Recipient" recipient;
      res_setHeader "X-Payment-Network" network] /\
   length effects = 5%nat) /\
  (has_setHeader res = false -> has_set res = true ->
   take 3 effects =
     [res_set "X-Payment-Amount" amount;
      res_set "X-Payment-Recipient" recipient;
      res_set "X-Payment-Network" network] /\
   length effects = 5%nat) /\
  (has_setHeader res = false -> has_set res = false ->
   length effects = 2%nat /\
   sent_headers (sent effects) = ∅ /\
   status (sent effects) = Some 402%Z).
Proof.
  intros Hfalsy. unfold terms, requirePayment. rewrite Hfalsy.
  destruct (has_setHeader res), (has_set res); repeat split; discriminate.
Qed.

Lemma header_setter_choice_witness :
  let config := {| amount := "100000"; recipient := Some ""; network := None |} in
  let koa := {| has_setHeader := false; has_set := true |} in
  let bare := {| has_setHeader := false; has_set := false |} in
  take 3 (requirePayment config (Some "ST1DWX") {| headers := ∅ |} koa) =
    [res_set "X-Payment-Amount" "100000";
     res_set "X-Payment-Recipient" "";
     res_set "X-Payment-Network" "stacks-testnet"] /\
  sent_headers
    (sent (requirePayment config (Some "ST1DWX") {| headers := ∅ |} bare)) = ∅.
Proof.
  intros config koa bare.
  pose proof (header_setter_choice config (Some "ST1DWX") {| headers := ∅ |}
                koa eq_refl) as [_ [Hkoa _]].
  pose proof (header_setter_choice config (Some "ST1DWX") {| headers := ∅ |}
                bare eq_refl) as [_ [_ Hbare]].
  split.
  - exact (proj1 (Hkoa eq_refl eq_refl)).
  - exact (proj1 (proj2 (Hbare eq_refl eq_refl))).
Defined.

End PaymentGatewayMore.

Section PaymentClientMore.
Import Run PaymentClient.

Variable config : LumineClientConfig.
Variable world : World.
Variable url : string.
Variable options : option (gmap string value).

Let g : Call := gated_request url options.
Let t : Call := settlement_trigger config.

(** The settlement trigger is called exactly when the first answer is a
    402, and then once. *)
Theorem trigger_only_after_402 :
  let log := fst (run (get config world url options)) in
  (trigger_calls config log = 1%nat <->
   exists first, world [g] = Some first /\ status first = 402%Z) /\
  (trigger_calls config log = 0%nat <->
   world [g] = None \/
   exists first, world [g] = Some first /\ status first <> 402%Z).
Proof.
  cbv zeta. subst g t. rewrite (get_runs config world url options).
  destruct (world [gated_request url options]) as [first|] eqn:Hfirst;
    cbn [fst].
  2:{ rewrite triggers_g. split; split; try done; try (by left).
      intros (first & ? & _). discriminate. }
  destruct (Z.eqb_spec (status first) 402) as [H402|Hnot]; cbn [negb fst].
  - match goal with
    | |- context [trigger_calls config (fst ?x)] =>
        assert (trigger_calls config (fst x) = 1%nat) as ->
    end.
    { destruct (world [gated_request url options; settlement_trigger config])
        as [paid|]; [|apply triggers_gt].
      destruct (negb (ok paid)); [apply triggers_gt|].
      destruct (json paid); [apply triggers_gtg|apply triggers_gt]. }
    split; split; try done; try (by eexists).
    intros [?|(first' & [= <-] & ?)]; [discriminate|done].
  - rewrite triggers_g. split; split; try done.
    + intros (first' & [= <-] & ?). done.
    + intros _. right. by exists first.
Qed.

(** A response that [get] returns is always an answer to the gated request:
    the first answer when it is not a 402, or the answer to the retry. The
    answer of the settlement trigger is never returned, and a 402 is
    returned only when it is the answer to the retry. *)
Theorem returned_response_is_gated (r : Response) :
  snd (run (get config world url options)) = inr r ->
  (fst (run (get config world url options)) = [g] /\
   world [g] = Some r /\ status r <> 402%Z) \/
  (fst (run (get config world url options)) = [g; t; g] /\
   world [g; t; g] = Some r).
Proof.
  rewrite (get_runs config world url options). fold g t.
  destruct (world [g]) as [first|]; [|discriminate].
  destruct (Z.eqb_spec (status first) 402) as [H402|Hnot]; cbn [negb].
  - destruct (world [g; t]) as [paid|]; [|discriminate].
    destruct (negb (ok paid)); [discriminate|].
    destruct (json paid); [|discriminate].
    cbn [fst snd]. destruct (world [g; t; g]) as [second|]; [|discriminate].
    intros [= <-]. by right.
  - cbn [fst snd]. intros [= <-]. by left.
Qed.

(** A fetch that rejects ends [get] at once, whichever of the three it
    is: [get] rejects with the failure of that call and requests nothing
    after it. Conversely, a failure that [get] returns names the last call
    made, which was left unanswered. *)
Theorem fetch_failure_stops_get :
  (world [g] = None ->
   run (get config world url options) = ([g], inl (FetchFailed g))) /\
  (forall first,
      world [g] = Some first -> status first = 402%Z ->
      world [g; t] = None ->
      run (get config world url options) = ([g; t], inl (FetchFailed t))) /\
  (forall first paid body,
      world [g] = Some first -> status first = 402%Z ->
      world [g; t] = Some paid -> ok paid = true -> json paid = Some body ->
      world [g; t; g] = None ->
      run (get config world url options) = ([g; t; g], inl (FetchFailed g))) /\
  (forall c,
      snd (run (get config world url options)) = inl (FetchFailed c) ->
      exists before,
        fst (run (get config world url options)) = before ++ [c] /\
        world (before ++ [c]) = None).
Proof.
  rewrite (get_runs config world url options). fold g t.
  split; [by intros ->|].
  split; [intros first -> -> ->; reflexivity|].
  split; [intros first paid body -> -> -> -> -> ->; reflexivity|].
  intros c.
  destruct (world [g]) as [first|] eqn:H1.
  2:{ cbn [fst snd]. intros [= <-]. by exists []. }
  destruct (negb (status first =? 402)%Z); [discriminate|].
  destruct (world [g; t]) as [paid|] eqn:H2.
  2:{ cbn [fst snd]. intros [= <-]. by exists [g]. }
  destruct (negb (ok paid)); [discriminate|].
  destruct (json paid); [|discriminate].
  cbn [fst snd]. destruct (world [g; t; g]) as [second|] eqn:H3; [discriminate|].
  intros [= <-]. by exists [g; t].
Qed.

End PaymentClientMore.

Section PaymentClientMoreScenarios.
Import Run PaymentClient.

Lemma returned_response_is_gated_witness :
  let world := scripted [response 402 None; response 200 (Some (obj []));
                         response 402 None] in
  fst (run (get example_config world example_url None)) =
    [gated_request example_url None; settlement_trigger example_config;
     gated_request example_url None].
Proof.
  intros world.
  destruct (returned_response_is_gated example_config world example_url None
              (response 402 None) eq_refl) as [(_ & _ & Hnot)|[Hlog _]].
  - exfalso. apply Hnot. reflexivity.
  - exact Hlog.
Defined.

Lemma fetch_failure_stops_get_witness :
  run (get example_config (scripted [response 402 None]) example_url None) =
    ([gated_request example_url None; settlement_trigger example_config],
     inl (FetchFailed (settlement_trigger example_config))).
Proof.
  exact (proj1 (proj2 (fetch_failure_stops_get example_config
                         (scripted [response 402 None]) example_url None))
           (response 402 None) eq_refl eq_refl eq_refl).
Defined.

End PaymentClientMoreScenarios.

Section BridgeDepositFlowScenarios.
Import Run BridgeDepositFlow.

Lemma submission_requires_sufficient_balance_witness :
  exists address value usdc,
    parseUnits (test_chain 1000000) "1.00" 6 = Some value /\
    balanceOf (test_chain 1000000)
      "0x1c7D4B196Cb0C7B01d743Fbc6116a902379C7238" address = Some usdc /\
    (value <= usdc)%Z.
Proof.
  apply (submission_requires_sufficient_balance (config (Some "0xkey"))
           (test_chain 1000000)).
  vm_compute. discriminate.
Defined.

End BridgeDepositFlowScenarios.

Section Bytes32More.
Import Js AddressCodec.

(** [bytes32FromBytes] does not tell a leading zero byte of its input from
    its own padding: an input and the same input with a zero byte in front
    give the same bytes32 value. *)
Theorem bytes32FromBytes_absorbs_leading_zero (bytes : list byte) :
  (length bytes < 32)%nat ->
  bytes32FromBytes (x00 :: bytes) = bytes32FromBytes bytes.
Proof.
  intros Hlen.
  rewrite !bytes32FromBytes_padded by (cbn [length]; lia).
  do 2 f_equal. cbn [length].
  replace (32 - length bytes)%nat with (S (32 - S (length bytes))) by lia.
  rewrite replicate_S_end, <- List.app_assoc. reflexivity.
Qed.

Lemma bytes32FromBytes_absorbs_leading_zero_witness :
  bytes32FromBytes [x00; x1a; xee] = bytes32FromBytes [x1a; xee].
Proof.
  apply (bytes32FromBytes_absorbs_leading_zero [x1a; xee]). cbn. lia.
Defined.

End Bytes32More.
